(** * Highlightr: region selection, toggle and erase logic

    A shallow embedding of [src/utils/selectRegion.ts] and of the
    [eraseHighlight] / [applyCommand] / [commandsMap] members of the plugin
    class, together with the properties stated about them.

    JavaScript strings are modelled as [list ascii] (code units below 256);
    line and column numbers are [Z] because the plugin subtracts lengths
    from them without any guard. *)

From Stdlib Require Import ZArith Ascii String Lia.
From stdpp Require Import base list strings gmap.

Local Open Scope nat_scope.

(** ** Text *)

Abbreviation text := (list ascii).

Definition lit (s : string) : text := list_ascii_of_string s.

Definition NL : ascii := "010"%char.
Definition CR : ascii := "013"%char.
Definition GT : ascii := ">"%char.
Definition LT : ascii := "<"%char.
Definition SPACE : ascii := " "%char.
Definition DQ : ascii := "034"%char.

Definition eqc (a b : ascii) : bool := Ascii.eqb a b.

(** [s.startsWith(needle)], the comparison every literal pattern performs. *)
Fixpoint startsWith (needle s : text) : bool :=
  match needle, s with
  | [], _ => true
  | _ :: _, [] => false
  | a :: n', b :: s' => eqc a b && startsWith n' s'
  end.

(** [a === b] on strings. *)
Fixpoint textEqb (a b : text) : bool :=
  match a, b with
  | [], [] => true
  | x :: a', y :: b' => eqc x y && textEqb a' b'
  | _, _ => false
  end.

(** JavaScript truthiness of a string: the empty string is falsy. *)
Definition truthy (s : text) : bool :=
  match s with [] => false | _ :: _ => true end.

(** [String.prototype.indexOf(needle, position)]; [None] stands for [-1]. *)
Fixpoint indexOfAux (needle s : text) (k : nat) : option nat :=
  if startsWith needle s then Some k
  else match s with
       | [] => None
       | _ :: t => indexOfAux needle t (S k)
       end.

Definition indexOf (needle s : text) (position : nat) : option nat :=
  let p := Nat.min position (length s) in
  indexOfAux needle (drop p s) p.

(** [s.slice(-1)]: the last code unit as a string, empty on the empty string. *)
Definition sliceLast (s : text) : text := drop (length s - 1) s.

(** White space in the sense of [trimStart] / [trimEnd], restricted to the
    code units below 256: TAB, LF, VT, FF, CR, SPACE and NBSP. *)
Definition isWhiteSpace (c : ascii) : bool :=
  let n := nat_of_ascii c in
  (Nat.leb 9 n && Nat.leb n 13) || Nat.eqb n 32 || Nat.eqb n 160.

Fixpoint trimStart (s : text) : text :=
  match s with
  | [] => []
  | c :: t => if isWhiteSpace c then trimStart t else s
  end.

Definition trimEnd (s : text) : text := rev (trimStart (rev s)).

(** [String.prototype.toLowerCase] on the code units below 256. *)
Definition lowerChar (c : ascii) : ascii :=
  let n := nat_of_ascii c in
  if (Nat.leb 65 n && Nat.leb n 90)
     || (Nat.leb 192 n && Nat.leb n 222 && negb (Nat.eqb n 215))
  then ascii_of_nat (n + 32) else c.

Definition toLowerCase (s : text) : text := map lowerChar s.

(** [s.split("\n")]: never empty, one more segment than there are breaks. *)
Fixpoint splitLines (s : text) : list text :=
  match s with
  | [] => [[]]
  | c :: t =>
      if eqc c NL then [] :: splitLines t
      else match splitLines t with
           | [] => [[c]]
           | l :: ls => (c :: l) :: ls
           end
  end.

(** ** The host editor

    The [Editor] of the host application is not part of the plugin; it is
    modelled here as a document (one string, lines separated by LF) with a
    selection given by two offsets, in the manner of CodeMirror.  Positions
    handed to the editor are clipped into the document: a line before the
    first one resolves to the start of the document, a line after the last
    one to its end, a column is clipped to the line. *)

Module Editor.

Record EditorPosition := mkPos { line : Z; ch : Z }.

Record t := mk { doc : text; anchor : nat; head : nat }.

(** Selection offsets lie inside the document. *)
Definition wf (e : t) : Prop :=
  anchor e <= length (doc e) /\ head e <= length (doc e).

Definition wfb (e : t) : bool :=
  Nat.leb (anchor e) (length (doc e)) && Nat.leb (head e) (length (doc e)).

(** [getLine(n)]: the text of line [n] without its break. *)
Fixpoint lineAt (d : text) (n : nat) : text :=
  match d with
  | [] => []
  | c :: r =>
      if eqc c NL then match n with 0 => [] | S n' => lineAt r n' end
      else match n with 0 => c :: lineAt r 0 | S _ => lineAt r n end
  end.

(** Offset of line [l], column [c], clipped. *)
Fixpoint offsetOf (d : text) (l c : nat) : nat :=
  match d with
  | [] => 0
  | x :: r =>
      if eqc x NL then match l with 0 => 0 | S l' => S (offsetOf r l' c) end
      else match l, c with
           | 0, 0 => 0
           | 0, S c' => S (offsetOf r 0 c')
           | S _, _ => S (offsetOf r l c)
           end
  end.

(** Line and column of an offset. *)
Fixpoint lineColOf (d : text) (o : nat) : nat * nat :=
  match o, d with
  | S o', x :: r =>
      let '(l, c) := lineColOf r o' in
      if eqc x NL then (S l, c)
      else match l with 0 => (0, S c) | S _ => (l, c) end
  | _, _ => (0, 0)
  end.

Definition posToOffset (d : text) (p : EditorPosition) : nat :=
  if (line p <? 0)%Z then 0
  else offsetOf d (Z.to_nat (line p)) (Z.to_nat (ch p)).

Definition offsetToPos (d : text) (o : nat) : EditorPosition :=
  let '(l, c) := lineColOf d o in mkPos (Z.of_nat l) (Z.of_nat c).

Definition slice (d : text) (a b : nat) : text := take (b - a) (drop a d).

Definition selFrom (e : t) : nat := Nat.min (anchor e) (head e).
Definition selTo (e : t) : nat := Nat.max (anchor e) (head e).

Definition getLine (e : t) (n : Z) : text :=
  if (n <? 0)%Z then [] else lineAt (doc e) (Z.to_nat n).

Definition getSelection (e : t) : text := slice (doc e) (selFrom e) (selTo e).

(** [getCursor()], [getCursor("from")], [getCursor("to")]. *)
Definition getCursor (e : t) : EditorPosition := offsetToPos (doc e) (head e).
Definition getCursorFrom (e : t) : EditorPosition := offsetToPos (doc e) (selFrom e).
Definition getCursorTo (e : t) : EditorPosition := offsetToPos (doc e) (selTo e).

Definition getRange (e : t) (from to : EditorPosition) : text :=
  slice (doc e) (posToOffset (doc e) from) (posToOffset (doc e) to).

Definition setSelection (e : t) (a h : EditorPosition) : t :=
  mk (doc e) (posToOffset (doc e) a) (posToOffset (doc e) h).

Definition setCursor (e : t) (p : EditorPosition) : t := setSelection e p p.

(** Where an offset of the old document lands after the range [a, b) has
    been replaced by [n] code units. *)
Definition mapOffset (a b n o : nat) : nat :=
  if Nat.leb o a then o
  else if Nat.leb b o then o - (b - a) + n
  else a + n.

(** [replaceRange(s, from, to)]; a reversed range is taken as empty. *)
Definition replaceRange (e : t) (s : text) (from to : EditorPosition) : t :=
  let a := posToOffset (doc e) from in
  let b := Nat.max a (posToOffset (doc e) to) in
  mk (take a (doc e) ++ s ++ drop b (doc e))
     (mapOffset a b (length s) (anchor e))
     (mapOffset a b (length s) (head e)).

(** [replaceSelection(s)]: the caret ends up after the inserted text. *)
Definition replaceSelection (e : t) (s : text) : t :=
  let a := selFrom e in
  let b := selTo e in
  mk (take a (doc e) ++ s ++ drop b (doc e)) (a + length s) (a + length s).

End Editor.


Abbreviation EditorPosition := Editor.EditorPosition.

(** ** Regular expressions of the plugin

    Each pattern is written out as the matcher the regular expression
    denotes at one start position; it returns the length of the match. *)

(** [.] does not match a line terminator. *)
Definition isLineTerminator (c : ascii) : bool := eqc c NL || eqc c CR.

(** [.*?[^\>]\>] : the lazy star first tries the continuation (a code unit
    other than [>] followed by [>]) and only then consumes one more code
    unit that is not a line terminator. *)
Fixpoint lazyTagTail (s : text) : option nat :=
  match s with
  | [] => None
  | c :: r =>
      if negb (eqc c GT) && startsWith [GT] r then Some 2
      else if isLineTerminator c then None
      else S <$> lazyTagTail r
  end.

(** [<mark style.*?[^\>]\>] and [<mark class.*?[^\>]\>], by their opener. *)
Definition matchOpenTag (opener s : text) : option nat :=
  if startsWith opener s
  then Nat.add (length opener) <$> lazyTagTail (drop (length opener) s)
  else None.

Definition markStyleRe : text -> option nat := matchOpenTag (lit "<mark style").
Definition markClassRe : text -> option nat := matchOpenTag (lit "<mark class").

(** [<\/mark>]. *)
Definition markCloseRe (s : text) : option nat :=
  if startsWith (lit "</mark>") s then Some 7 else None.

(** [s.replace(re, empty)] for a global [re]: scanning from the left, the first
    start position at which [re] matches is removed with its match and the
    scan resumes after it.  [skip] counts the code units of the current
    match still to be dropped. *)
Fixpoint replaceAllFrom (re : text -> option nat) (skip : nat) (s : text) : text :=
  match s with
  | [] => []
  | c :: r =>
      match skip with
      | S k => replaceAllFrom re k r
      | 0 =>
          match re (c :: r) with
          | Some (S n) => replaceAllFrom re n r
          | _ => c :: replaceAllFrom re 0 r
          end
      end
  end.

Definition replaceAll (re : text -> option nat) (s : text) : text :=
  replaceAllFrom re 0 s.

(** The three substitutions shared by [eraseHighlight] and [applyCommand]. *)
Definition stripMarks (s : text) : text :=
  replaceAll markCloseRe (replaceAll markClassRe (replaceAll markStyleRe s)).

(** [\w] and the case folding of the [i] flag, both ASCII only. *)
Definition isWordChar (c : ascii) : bool :=
  let n := nat_of_ascii c in
  (Nat.leb 48 n && Nat.leb n 57) || (Nat.leb 65 n && Nat.leb n 90)
  || (Nat.leb 97 n && Nat.leb n 122) || Nat.eqb n 95.

Definition foldCase (c : ascii) : ascii :=
  let n := nat_of_ascii c in
  if Nat.leb 97 n && Nat.leb n 122 then ascii_of_nat (n - 32) else c.

Fixpoint startsWithCI (needle s : text) : bool :=
  match needle, s with
  | [], _ => true
  | _ :: _, [] => false
  | a :: n', b :: s' => eqc (foldCase a) (foldCase b) && startsWithCI n' s'
  end.

(** [[^>]*] is greedy: it runs up to the first [>] or the end. *)
Fixpoint skipNotGt (s : text) : text :=
  match s with
  | [] => []
  | c :: r => if eqc c GT then s else skipNotGt r
  end.

(** [<mark\b[^>]*>] with flag [i] at one start position. *)
Definition openMarkAt (s : text) : bool :=
  startsWithCI (lit "<mark") s
  && (let r := drop 5 s in
      match r with
      | [] => false
      | c :: _ => negb (isWordChar c) && startsWith [GT] (skipNotGt r)
      end).

(** [/<mark\b[^>]*>/i.test(s)]. *)
Fixpoint testOpenMark (s : text) : bool :=
  openMarkAt s || match s with [] => false | _ :: r => testOpenMark r end.

(** ** [src/utils/selectRegion.ts] *)

Record MarkRegionResult := mkMarkRegionResult {
  mr_selection : text;
  markSelectionMade : bool;
  mr_from : EditorPosition;
  mr_to : EditorPosition
}.

(** Outcome of a loop run on a bounded number of iterations. *)
Inductive outcome (A : Type) : Type :=
| OutOfFuel : outcome A
| Done : A -> outcome A.
Arguments OutOfFuel {A}.
Arguments Done {A} _.

(** The [while (true)] loop of [selectMarkRegionIfInside]: [Done None] is a
    [break] with [markStart] and [markEnd] still [-1], [Done (Some (s, e))]
    the [break] after both were assigned. *)
Fixpoint markScan (fuel : nat) (lineText : text) (cursorCh : Z) (searchPos : nat)
  : outcome (option (nat * nat)) :=
  match fuel with
  | 0 => OutOfFuel
  | S fuel' =>
      match indexOf (lit "<mark") lineText searchPos with
      | None => Done None
      | Some openIdx =>
          match indexOf (lit "</mark>") lineText openIdx with
          | None => Done None
          | Some closeIdxRaw =>
              let closeIdx := closeIdxRaw + length (lit "</mark>") in
              if (cursorCh >=? Z.of_nat openIdx)%Z && (cursorCh <=? Z.of_nat closeIdx)%Z
              then Done (Some (openIdx, closeIdx))
              else markScan fuel' lineText cursorCh closeIdx
          end
      end
  end.

(** Every iteration moves [searchPos] forward by at least seven code units,
    so one more iteration than the line has code units is always enough. *)
Definition locateMark (lineText : text) (cursorCh : Z) : outcome (option (nat * nat)) :=
  markScan (S (length lineText)) lineText cursorCh 0.

Definition selectMarkRegionIfInside (editor : Editor.t) (makeSelection : bool)
  : MarkRegionResult * Editor.t :=
  let selection := Editor.getSelection editor in
  let cursor := Editor.getCursor editor in
  let line := Editor.line cursor in
  let lineText := Editor.getLine editor line in
  let '(selection, made, editor) :=
    if negb (truthy selection) then
      match locateMark lineText (Editor.ch cursor) with
      | Done (Some (markStart, markEnd)) =>
          let editor' :=
            if makeSelection
            then Editor.setSelection editor
                   (Editor.mkPos line (Z.of_nat markStart))
                   (Editor.mkPos line (Z.of_nat markEnd))
            else editor in
          (Editor.getSelection editor', true, editor')
      | _ => (selection, false, editor)
      end
    else (selection, false, editor) in
  (mkMarkRegionResult selection made
     (Editor.getCursorFrom editor) (Editor.getCursorTo editor),
   editor).

Record WordSelectionResult := mkWordSelectionResult {
  ws_selection : text;
  ws_from : EditorPosition;
  ws_to : EditorPosition;
  wordSelected : bool
}.

(** [lineText[i] !== " "]; reading past the end gives [undefined]. *)
Definition notSpaceAt (lineText : text) (i : nat) : bool :=
  match lineText !! i with
  | Some c => negb (eqc c SPACE)
  | None => true
  end.

(** [while (startCh > 0 && lineText[startCh - 1] !== " ") startCh--]. *)
Fixpoint wordStart (lineText : text) (startCh : nat) : nat :=
  match startCh with
  | 0 => 0
  | S k => if notSpaceAt lineText k then wordStart lineText k else startCh
  end.

(** [while (endCh < lineText.length && lineText[endCh] !== " ") endCh++];
    [fuel] bounds the iterations, and the loop has left by itself once
    [length lineText - endCh] of them are done. *)
Fixpoint wordEndLoop (fuel : nat) (lineText : text) (endCh : nat) : nat :=
  match fuel with
  | 0 => endCh
  | S fuel' =>
      if Nat.ltb endCh (length lineText) && notSpaceAt lineText endCh
      then wordEndLoop fuel' lineText (S endCh)
      else endCh
  end.

Definition wordEnd (lineText : text) (endCh : nat) : nat :=
  wordEndLoop (length lineText - endCh) lineText endCh.

Definition selectWordIfNone (editor : Editor.t) : WordSelectionResult * Editor.t :=
  let selection := Editor.getSelection editor in
  let '(selection, wordSel, editor) :=
    if negb (truthy selection) then
      let cursor := Editor.getCursor editor in
      let line := Editor.line cursor in
      let lineText := Editor.getLine editor line in
      let startCh := wordStart lineText (Z.to_nat (Editor.ch cursor)) in
      let endCh := wordEnd lineText (Z.to_nat (Editor.ch cursor)) in
      let editor' :=
        Editor.setSelection editor
          (Editor.mkPos line (Z.of_nat startCh))
          (Editor.mkPos line (Z.of_nat endCh)) in
      (Editor.getSelection editor', true, editor')
    else (selection, false, editor) in
  (mkWordSelectionResult selection
     (Editor.getCursorFrom editor) (Editor.getCursorTo editor) wordSel,
   editor).

(** ** The plugin class *)

Record HighlightrSettings := mkSettings {
  useTogglingBehavior : bool;
  highlighterMethods : text;
  highlighters : gmap text text;
  highlighterOrder : list text
}.

Module CommandPlot.
Record t := mk { char : Z; line : Z; prefix : text; suffix : text }.
End CommandPlot.

(** A template literal prints a missing property as [undefined].  The
    colour mapping is read as a finite map of its own keys: a key that names
    a property inherited from [Object.prototype] is outside this model. *)
Definition interpolate (v : option text) : text :=
  match v with
  | Some s => s
  | None => lit "undefined"
  end.

(** [commandsMap.highlight] for one [highlighterKey]. *)
Definition commandsMap (settings : HighlightrSettings) (highlighterKey : text)
  : CommandPlot.t :=
  CommandPlot.mk 34 0
    (if textEqb (highlighterMethods settings) (lit "css-classes")
     then lit "<mark class=" ++ [DQ] ++ lit "hltr-"
          ++ toLowerCase highlighterKey ++ [DQ] ++ lit ">"
     else lit "<mark style=" ++ [DQ] ++ lit "background: "
          ++ interpolate (highlighters settings !! highlighterKey)
          ++ lit ";" ++ [DQ] ++ lit ">")
    (lit "</mark>").

(** [newTo] of [eraseHighlight], from [newStr.split("\n")]. *)
Definition eraseNewTo (from : EditorPosition) (newStr : text) : EditorPosition :=
  let lines := splitLines newStr in
  if Nat.eqb (length lines) 1
  then Editor.mkPos (Editor.line from)
         (Editor.ch from + Z.of_nat (length (nth 0 lines [])))
  else Editor.mkPos (Editor.line from + (Z.of_nat (length lines) - 1))
         (Z.of_nat (length (nth (length lines - 1) lines []))).

Definition eraseHighlight (settings : HighlightrSettings) (editor : Editor.t)
  : Editor.t :=
  let '(r, editor) := selectMarkRegionIfInside editor true in
  let from := mr_from r in
  let to := mr_to r in
  let currentStr := Editor.getRange editor from to in
  let newStr := stripMarks currentStr in
  let editor := Editor.replaceRange editor newStr from to in
  if useTogglingBehavior settings && Nat.ltb 0 (length newStr) then
    let newTo := eraseNewTo from newStr in
    if negb (markSelectionMade r)
    then Editor.setSelection editor from newTo
    else Editor.setCursor editor newTo
  else if markSelectionMade r then Editor.setCursor editor from
  else editor.

(** The values [applyCommand] computes before it looks for a merge. *)
Definition cursorPos (prefix suffix selectedText : text) : Z :=
  if Nat.ltb 0 (length selectedText)
  then Z.of_nat (length prefix) + Z.of_nat (length suffix) + 1
  else Z.of_nat (length prefix).

Definition preStart (command : CommandPlot.t) (prefix : text)
    (curserStart : EditorPosition) : EditorPosition :=
  Editor.mkPos (Editor.line curserStart - CommandPlot.line command)
               (Editor.ch curserStart - Z.of_nat (length prefix)).

Definition sufEnd (command : CommandPlot.t) (suffix : text)
    (curserStart curserEnd : EditorPosition) : EditorPosition :=
  Editor.mkPos (Editor.line curserStart + CommandPlot.line command)
               (Editor.ch curserEnd + Z.of_nat (length suffix)).

(** [command.suffix || prefix]. *)
Definition suffixOf (command : CommandPlot.t) : text :=
  if truthy (CommandPlot.suffix command) then CommandPlot.suffix command
  else CommandPlot.prefix command.

(** The two nested conditions that guard the merge of [applyCommand]. *)
Definition mergeTaken (command : CommandPlot.t) (editor : Editor.t)
    (w : WordSelectionResult) : bool :=
  let prefix := CommandPlot.prefix command in
  let suffix := suffixOf command in
  let pre := Editor.getRange editor (preStart command prefix (ws_from w)) (ws_from w) in
  let suf := Editor.getRange editor (ws_to w)
               (sufEnd command suffix (ws_from w) (ws_to w)) in
  let preLast := sliceLast pre in
  let prefixLast := sliceLast (trimStart prefix) in
  textEqb suf (trimEnd suffix)
  && (textEqb preLast prefixLast && truthy (ws_selection w)).

Definition applyCommand (settings : HighlightrSettings) (command : CommandPlot.t)
    (editor : Editor.t) : Editor.t :=
  let '(w, editor) := selectWordIfNone editor in
  let selectedText := ws_selection w in
  let curserStart := ws_from w in
  let curserEnd := ws_to w in
  let prefix := CommandPlot.prefix command in
  let suffix := suffixOf command in
  if useTogglingBehavior settings then
    if truthy selectedText && testOpenMark selectedText then
      let newStr := stripMarks selectedText in
      let editor := Editor.replaceSelection editor newStr in
      let newTo := Editor.mkPos (Editor.line curserStart)
                     (Editor.ch curserStart + Z.of_nat (length newStr)) in
      Editor.setSelection editor curserStart newTo
    else
      let editor := Editor.replaceSelection editor (prefix ++ selectedText ++ suffix) in
      if truthy selectedText && Nat.ltb 0 (length selectedText)
         && negb (wordSelected w)
      then
        let newTo := Editor.mkPos (Editor.line curserStart)
                       (Editor.ch curserStart + Z.of_nat (length prefix)
                        + Z.of_nat (length selectedText)
                        + Z.of_nat (length suffix)) in
        Editor.setSelection editor curserStart newTo
      else
        Editor.setCursor editor
          (Editor.mkPos (Editor.line curserStart)
             (Editor.ch curserStart + Z.of_nat (length prefix)))
  else
    let cursorPos := cursorPos prefix suffix selectedText in
    let setCursor (editor : Editor.t) (mode : Z) :=
      Editor.setCursor editor
        (Editor.mkPos (Editor.line curserStart + CommandPlot.line command * mode)
                      (Editor.ch curserEnd + cursorPos * mode)) in
    if mergeTaken command editor w then
      let editor :=
        Editor.replaceRange editor selectedText
          (preStart command prefix curserStart)
          (sufEnd command suffix curserStart curserEnd) in
      Editor.setCursor editor
        (Editor.mkPos (Editor.line curserStart + CommandPlot.line command * (-1))
                      (Editor.ch curserEnd + (cursorPos * (-1) + 8)))
    else
      let editor := Editor.replaceSelection editor (prefix ++ selectedText ++ suffix) in
      let editor :=
        if useTogglingBehavior settings then
          Editor.setSelection editor
            (Editor.mkPos (Editor.line curserStart + CommandPlot.line command)
                          (Editor.ch curserStart))
            (Editor.mkPos (Editor.line curserStart + CommandPlot.line command)
                          (Editor.ch curserStart + Z.of_nat (length prefix)
                           + Z.of_nat (length selectedText)
                           + Z.of_nat (length suffix)))
        else editor in
      setCursor editor 1%Z.

(** The editor callback registered for [highlighterKey]. *)
Definition highlightCommand (settings : HighlightrSettings) (highlighterKey : text)
    (editor : Editor.t) : Editor.t :=
  applyCommand settings (commandsMap settings highlighterKey) editor.

(** ** Vocabulary of the stated properties *)

(** The text stays on one line. *)
Definition noLineBreak (s : text) : bool :=
  forallb (fun c => negb (eqc c NL)) s.

(** Pattern [re] matches at some start position of [s]. *)
Fixpoint hasMatch (re : text -> option nat) (s : text) : bool :=
  match re s with Some _ => true | None => false end
  || match s with [] => false | _ :: r => hasMatch re r end.

(** [s.includes(needle)]. *)
Fixpoint occursIn (needle s : text) : bool :=
  startsWith needle s
  || match s with [] => false | _ :: r => occursIn needle r end.

(** A key or colour that can sit inside the quoted attribute of the opening
    tag: no angle bracket, no line terminator. *)
Definition plainAttr (s : text) : bool :=
  forallb (fun c => negb (eqc c LT || eqc c GT || isLineTerminator c)) s.

(** Number of line breaks of a text, and what follows the last of them. *)
Fixpoint breakCount (s : text) : nat :=
  match s with
  | [] => 0
  | c :: r => (if eqc c NL then 1 else 0) + breakCount r
  end.

Fixpoint finalSegment (s : text) : text :=
  match s with
  | [] => []
  | c :: r =>
      if Nat.ltb 0 (breakCount r) then finalSegment r
      else if eqc c NL then r else c :: r
  end.

(** [i] is the first index at or after [pos] where [needle] occurs in [s]. *)
Definition firstAt (needle s : text) (pos i : nat) : Prop :=
  pos <= i /\ startsWith needle (drop i s) = true
  /\ forall j, pos <= j < i -> startsWith needle (drop j s) = false.

(** [needle] does not occur in [s] at or after [pos]. *)
Definition noneFrom (needle s : text) (pos : nat) : Prop :=
  forall j, pos <= j -> startsWith needle (drop j s) = false.

(** The region found by a left-to-right scan of [lineText] from [pos]: the
    first pair of an opening [<mark] and the first [</mark>] after it whose
    bracket, closing tag included, contains the cursor column; a pair that
    does not contain it moves the scan to the end of its closing tag, and an
    opening without a closing ends the scan. *)
Inductive MarkRegion (lineText : text) (cursorCh : Z)
  : nat -> option (nat * nat) -> Prop :=
| MarkRegion_no_open pos :
    noneFrom (lit "<mark") lineText pos ->
    MarkRegion lineText cursorCh pos None
| MarkRegion_no_close pos openIdx :
    firstAt (lit "<mark") lineText pos openIdx ->
    noneFrom (lit "</mark>") lineText openIdx ->
    MarkRegion lineText cursorCh pos None
| MarkRegion_inside pos openIdx closeIdxRaw :
    firstAt (lit "<mark") lineText pos openIdx ->
    firstAt (lit "</mark>") lineText openIdx closeIdxRaw ->
    (Z.of_nat openIdx <= cursorCh <= Z.of_nat (closeIdxRaw + 7))%Z ->
    MarkRegion lineText cursorCh pos (Some (openIdx, closeIdxRaw + 7))
| MarkRegion_skip pos openIdx closeIdxRaw res :
    firstAt (lit "<mark") lineText pos openIdx ->
    firstAt (lit "</mark>") lineText openIdx closeIdxRaw ->
    ~ (Z.of_nat openIdx <= cursorCh <= Z.of_nat (closeIdxRaw + 7))%Z ->
    MarkRegion lineText cursorCh (closeIdxRaw + 7) res ->
    MarkRegion lineText cursorCh pos res.

(** The word around column [k]: it runs from [s] to [t], holds no space, and
    is bounded on each side by a space or by the end of the line. *)
Definition wordAround (lineText : text) (k s t : nat) : Prop :=
  s <= k <= t /\ t <= length lineText
  /\ (forall i, s <= i < t -> lineText !! i <> Some SPACE)
  /\ (s = 0 \/ lineText !! (s - 1) = Some SPACE)
  /\ (t = length lineText \/ lineText !! t = Some SPACE).

(** No [<] among the code units. *)
Definition noLT (s : text) : bool := forallb (fun c => negb (eqc c LT)) s.


(** ** Sample settings and buffers *)

Definition togglingOn : HighlightrSettings :=
  mkSettings true (lit "css-classes") ∅ [lit "a"; lit "b"].

Definition togglingOff : HighlightrSettings :=
  mkSettings false (lit "css-classes") ∅ [lit "a"; lit "b"].

Definition inlineStyles : HighlightrSettings :=
  mkSettings true (lit "inline-styles") {[ lit "a" := lit "#ffd400" ]} [lit "a"].

(** The opening tag the plugin writes for key [a] in class mode. *)
Definition openA : text := CommandPlot.prefix (commandsMap togglingOn (lit "a")).

(** [abc def ghi] with [def] selected, and with a caret inside [def]. *)
Definition bufDefSelected : Editor.t := Editor.mk (lit "abc def ghi") 4 7.
Definition bufDefCaret : Editor.t := Editor.mk (lit "abc def ghi") 5 5.


(** [hi] highlighted by the plugin, caret inside [hi]. *)
Definition bufMarkedCaret : Editor.t := Editor.mk (openA ++ lit "hi</mark>") 22 22.

(** [hi] highlighted by the plugin and selected. *)
Definition bufMarkedSelected : Editor.t := Editor.mk (openA ++ lit "hi</mark>") 21 23.

(** As before with a space between the opening tag and the selected [hi]. *)
Definition bufMarkedSpace : Editor.t := Editor.mk (openA ++ lit " hi</mark>") 22 24.

(** A highlighted [hi] inside a line, caret inside [hi]. *)
Definition bufInLine : Editor.t :=
  Editor.mk (lit "x " ++ openA ++ lit "hi</mark> y") 24 24.

(** A bare tag forming one word with its content, caret inside. *)
Definition bufBareTag : Editor.t := Editor.mk (lit "x <mark>hi</mark> y") 4 4.


(** Two lines selected as a whole. *)
Definition bufTwoLines : Editor.t := Editor.mk (lit "ab" ++ [NL] ++ lit "cd") 0 5.

(** Three stripped lines inside one selected markup. *)
Definition bufThreeLines : Editor.t :=
  Editor.mk (openA ++ lit "ab" ++ [NL] ++ lit "cd" ++ [NL] ++ lit "efg</mark>") 0 37.

(** Inline styles with an empty colour mapping. *)
Definition inlineNoColours : HighlightrSettings :=
  mkSettings true (lit "inline-styles") ∅ [lit "pink"].

(** ** The menu command and the style classes *)

(** The editor callback of [highlighter-plugin-menu].  [menuPresent] stands
    for the outcome of the [document.querySelector] test; the second
    component tells whether [highlighterMenu] is called. *)
Definition openHighlightr (settings : HighlightrSettings) (menuPresent : bool)
    (editor : Editor.t) : Editor.t * bool :=
  let '(r, editor) := selectMarkRegionIfInside editor false in
  if useTogglingBehavior settings && markSelectionMade r
  then (eraseHighlight settings editor, false)
  else (editor, negb menuPresent).

(** [classList.toggle(token, force)] on the class list of the body. *)
Definition classToggle (token : text) (force : bool) (classList : gset text)
  : gset text :=
  if force then classList ∪ {[ token ]} else classList ∖ {[ token ]}.

(** [updateStyle], with [settings.highlighterStyle] as its argument. *)
Definition updateStyle (highlighterStyle : text) (classList : gset text)
  : gset text :=
  classToggle (lit "highlightr-realistic")
    (textEqb highlighterStyle (lit "realistic"))
    (classToggle (lit "highlightr-rounded")
       (textEqb highlighterStyle (lit "rounded"))
       (classToggle (lit "highlightr-floating")
          (textEqb highlighterStyle (lit "floating"))
          (classToggle (lit "highlightr-lowlight")
             (textEqb highlighterStyle (lit "lowlight")) classList))).

(** The four classes [updateStyle] owns. *)
Definition styleClasses : list text :=
  [lit "highlightr-lowlight"; lit "highlightr-floating";
   lit "highlightr-rounded"; lit "highlightr-realistic"].

(** An empty buffer, and a caret between two spaces. *)
Definition bufEmpty : Editor.t := Editor.mk [] 0 0.
Definition bufBlank : Editor.t := Editor.mk (lit "ab  cd") 3 3.

(** A whole highlight written by the plugin, selected with its tags. *)
Definition bufMarkupSelected : Editor.t := Editor.mk (openA ++ lit "hi</mark>") 0 30.

(** [hi] highlighted by the plugin inside a line of the second of three
    lines, caret inside the opening tag. *)
Definition bufSecondLine : Editor.t :=
  Editor.mk (lit "one" ++ [NL] ++ lit "x " ++ openA ++ lit "hi</mark> y"
             ++ [NL] ++ lit "three") 9 9.

(** * Properties *)

(** ** Characters and literal prefixes *)

Lemma eqc_eq a b : eqc a b = true <-> a = b.
Proof. unfold eqc. apply Ascii.eqb_eq. Qed.

Lemma eqc_neq a b : eqc a b = false <-> a <> b.
Proof. unfold eqc. apply Ascii.eqb_neq. Qed.

Lemma eqc_refl a : eqc a a = true.
Proof. by apply eqc_eq. Qed.

Lemma eqc_sym a b : eqc a b = eqc b a.
Proof. apply Ascii.eqb_sym. Qed.

Lemma textEqb_eq a b : textEqb a b = true <-> a = b.
Proof.
  revert b. induction a as [|x a IH]; intros [|y b]; simpl; try (split; congruence).
  rewrite andb_true_iff, eqc_eq, IH. split; [intros [-> ->]; done | intros [= -> ->]; done].
Qed.

Lemma truthy_true s : truthy s = true <-> s <> [].
Proof. destruct s; simpl; split; congruence. Qed.

Lemma startsWith_app needle s : startsWith needle (needle ++ s) = true.
Proof. induction needle as [|a n IH]; simpl; [done|]. by rewrite eqc_refl. Qed.

Lemma startsWith_inv needle s :
  startsWith needle s = true -> s = needle ++ drop (length needle) s.
Proof.
  revert s. induction needle as [|a n IH]; intros [|b s]; simpl; try done.
  rewrite andb_true_iff, eqc_eq. intros [-> H]. f_equal. by apply IH.
Qed.

Lemma startsWith_length needle s :
  startsWith needle s = true -> length needle <= length s.
Proof.
  intros H. rewrite (startsWith_inv _ _ H), length_app. lia.
Qed.

(** ** The editor model *)

Module EditorFacts.

Lemma offsetOf_le d : forall l c, Editor.offsetOf d l c <= length d.
Proof.
  induction d as [|x r IH]; intros l c; simpl; [lia|].
  destruct (eqc x NL).
  - destruct l; [lia|]. specialize (IH l c). lia.
  - destruct l; [destruct c; [lia|specialize (IH 0 c); lia]|].
    specialize (IH (S l) c). lia.
Qed.

Lemma posToOffset_le d p : Editor.posToOffset d p <= length d.
Proof.
  unfold Editor.posToOffset. destruct (Editor.line p <? 0)%Z; [lia|].
  apply offsetOf_le.
Qed.

Lemma offsetOf_col0 d : Editor.offsetOf d 0 0 = 0.
Proof. destruct d as [|x r]; simpl; [done|]. by destruct (eqc x NL). Qed.

(** The position of an offset only depends on the text before it. *)
Lemma lineColOf_app pre x :
  Editor.lineColOf (pre ++ x) (length pre) = Editor.lineColOf pre (length pre).
Proof.
  induction pre as [|c pre IH]; simpl; [by destruct x|]. by rewrite IH.
Qed.

Lemma lineColOf_take d o :
  o <= length d ->
  Editor.lineColOf d o = Editor.lineColOf (take o d) (length (take o d)).
Proof.
  intros Ho. pose proof (lineColOf_app (take o d) (drop o d)) as H.
  rewrite take_drop in H. rewrite length_take_le in H |- * by done. done.
Qed.

(** Columns counted from the end of [pre] address the text that follows,
    as long as that text stays on the line. *)
Lemma offsetOf_inside pre mid post k :
  noLineBreak mid = true ->
  k <= length mid ->
  let '(l, c) := Editor.lineColOf pre (length pre) in
  Editor.offsetOf (pre ++ mid ++ post) l (c + k) = length pre + k.
Proof.
  intros Hmid. revert k. induction pre as [|x pre IH]; intros k Hk; simpl.
  - revert k Hk. induction mid as [|m mid IHm]; intros k Hk; simpl in *.
    + assert (k = 0) as -> by lia. apply offsetOf_col0.
    + apply andb_true_iff in Hmid as [Hm Hmid].
      apply negb_true_iff in Hm. rewrite Hm.
      destruct k; [done|]. f_equal. apply IHm; [done|lia].
  - specialize (IH k Hk).
    destruct (Editor.lineColOf pre (length pre)) as [l c].
    destruct (eqc x NL) eqn:Hx; simpl.
    + by rewrite IH.
    + destruct l; simpl; rewrite ?Hx; by rewrite IH.
Qed.

Lemma offsetOf_lineColOf d o :
  o <= length d ->
  let '(l, c) := Editor.lineColOf d o in Editor.offsetOf d l c = o.
Proof.
  intros Ho. rewrite (lineColOf_take d o Ho).
  pose proof (offsetOf_inside (take o d) [] (drop o d) 0 eq_refl (Nat.le_refl _)) as H.
  destruct (Editor.lineColOf (take o d) (length (take o d))) as [l c].
  simpl in H. rewrite take_drop, Nat.add_0_r, Nat.add_0_r in H.
  by rewrite H, length_take_le.
Qed.

Lemma posToOffset_mkPos d (l c : nat) :
  Editor.posToOffset d (Editor.mkPos (Z.of_nat l) (Z.of_nat c)) = Editor.offsetOf d l c.
Proof.
  unfold Editor.posToOffset. simpl.
  destruct (Z.ltb_spec (Z.of_nat l) 0); [lia|]. by rewrite !Nat2Z.id.
Qed.

Lemma posToOffset_offsetToPos d o :
  o <= length d -> Editor.posToOffset d (Editor.offsetToPos d o) = o.
Proof.
  intros Ho. unfold Editor.offsetToPos.
  pose proof (offsetOf_lineColOf d o Ho) as H.
  destruct (Editor.lineColOf d o) as [l c]. by rewrite posToOffset_mkPos.
Qed.

(** A position recorded before an edit at offset [a], moved [k] columns to
    the right, addresses offset [a + k] of the edited document when the
    inserted text has no line break. *)
Lemma posToOffset_after_edit d a ins post k :
  a <= length d ->
  noLineBreak ins = true ->
  k <= length ins ->
  let p := Editor.offsetToPos d a in
  Editor.posToOffset (take a d ++ ins ++ post)
    (Editor.mkPos (Editor.line p) (Editor.ch p + Z.of_nat k)) = a + k.
Proof.
  intros Ha Hins Hk. unfold Editor.offsetToPos.
  rewrite (lineColOf_take d a Ha).
  pose proof (offsetOf_inside (take a d) ins post k Hins Hk) as H.
  destruct (Editor.lineColOf (take a d) (length (take a d))) as [l c]. simpl.
  rewrite <- Nat2Z.inj_add, posToOffset_mkPos, H. by rewrite length_take_le.
Qed.

Lemma slice_full d a b :
  a <= b -> take a d ++ Editor.slice d a b ++ drop b d = d.
Proof.
  intros Hab. unfold Editor.slice.
  rewrite <- (take_drop a d) at 4.
  f_equal. rewrite <- (take_drop (b - a) (drop a d)) at 2.
  f_equal. rewrite drop_drop. f_equal. lia.
Qed.

Lemma slice_inserted pre ins post :
  Editor.slice (pre ++ ins ++ post) (length pre) (length pre + length ins) = ins.
Proof.
  unfold Editor.slice. rewrite drop_app_length.
  replace (length pre + length ins - length pre) with (length ins) by lia.
  apply take_app_length.
Qed.

Lemma selFrom_le_selTo e : Editor.selFrom e <= Editor.selTo e.
Proof. unfold Editor.selFrom, Editor.selTo. lia. Qed.

Lemma selTo_le e : Editor.wf e -> Editor.selTo e <= length (Editor.doc e).
Proof. intros [? ?]. unfold Editor.selTo. lia. Qed.

Lemma wf_setSelection e a h : Editor.wf (Editor.setSelection e a h).
Proof. split; simpl; apply posToOffset_le. Qed.

Lemma wfb_wf e : Editor.wfb e = true <-> Editor.wf e.
Proof.
  unfold Editor.wfb, Editor.wf.
  rewrite andb_true_iff, !Nat.leb_le. done.
Qed.

End EditorFacts.

(** ** Global replacement *)

Lemma replaceAllFrom_skip re k s :
  replaceAllFrom re k s = replaceAll re (drop k s).
Proof.
  revert k. induction s as [|c r IH]; intros [|k]; simpl; auto.
Qed.

Lemma replaceAll_nil re : replaceAll re [] = [].
Proof. done. Qed.

Lemma replaceAll_match re s n :
  re s = Some (S n) -> replaceAll re s = replaceAll re (drop (S n) s).
Proof.
  destruct s as [|c r]; intros H.
  - by rewrite drop_nil.
  - unfold replaceAll at 1. simpl. rewrite H. apply replaceAllFrom_skip.
Qed.

Lemma replaceAll_keep re c r :
  re (c :: r) = None -> replaceAll re (c :: r) = c :: replaceAll re r.
Proof. intros H. unfold replaceAll. simpl. by rewrite H. Qed.

(** Code units at which the pattern does not match are copied. *)
Lemma replaceAll_app_keep re x y :
  (forall i, i < length x -> re (drop i x ++ y) = None) ->
  replaceAll re (x ++ y) = x ++ replaceAll re y.
Proof.
  induction x as [|c x IH]; intros H; simpl; [done|].
  rewrite replaceAll_keep.
  - f_equal. apply IH. intros i Hi. apply (H (S i)). simpl. lia.
  - apply (H 0). simpl. lia.
Qed.

Lemma hasMatch_false_drop re s i :
  hasMatch re s = false -> re (drop i s) = None.
Proof.
  revert i. induction s as [|c r IH]; intros i H; simpl in H.
  - rewrite drop_nil. by destruct (re []).
  - apply orb_false_iff in H as [H1 H2]. destruct i; simpl.
    + by destruct (re (c :: r)).
    + by apply IH.
Qed.

(** A substitution whose pattern matches nowhere is the identity. *)
Lemma replaceAll_no_match re s :
  hasMatch re s = false -> replaceAll re s = s.
Proof.
  intros H. rewrite <- (app_nil_r s) at 1.
  rewrite replaceAll_app_keep.
  - by rewrite replaceAll_nil, app_nil_r.
  - intros i _. rewrite app_nil_r. by apply hasMatch_false_drop.
Qed.

Lemma stripMarks_no_match s :
  hasMatch markStyleRe s = false ->
  hasMatch markClassRe s = false ->
  hasMatch markCloseRe s = false ->
  stripMarks s = s.
Proof.
  intros H1 H2 H3. unfold stripMarks.
  by rewrite (replaceAll_no_match _ _ H1), (replaceAll_no_match _ _ H2),
    (replaceAll_no_match _ _ H3).
Qed.

(** ** What [selectMarkRegionIfInside] and [eraseHighlight] do to the document *)

Lemma selectMark_doc e mk :
  Editor.doc (selectMarkRegionIfInside e mk).2 = Editor.doc e.
Proof.
  unfold selectMarkRegionIfInside.
  destruct (negb (truthy (Editor.getSelection e))); [|done].
  destruct (locateMark _ _) as [|[[s t]|]]; try done.
  by destruct mk.
Qed.

Lemma selectMark_wf e mk :
  Editor.wf e -> Editor.wf (selectMarkRegionIfInside e mk).2.
Proof.
  intros Hwf. unfold selectMarkRegionIfInside.
  destruct (negb (truthy (Editor.getSelection e))); [|done].
  destruct (locateMark _ _) as [|[[s t]|]]; try done.
  destruct mk; [apply EditorFacts.wf_setSelection|done].
Qed.

Lemma selectMark_from_to e mk :
  let '(r, e1) := selectMarkRegionIfInside e mk in
  mr_from r = Editor.getCursorFrom e1 /\ mr_to r = Editor.getCursorTo e1.
Proof.
  unfold selectMarkRegionIfInside.
  destruct (negb (truthy (Editor.getSelection e))); [|done].
  by destruct (locateMark _ _) as [|[[s t]|]].
Qed.

(** The offsets of the span [eraseHighlight] works on are those of the
    selection the locator leaves behind. *)
Lemma selectMark_offsets e mk :
  Editor.wf e ->
  let '(r, e1) := selectMarkRegionIfInside e mk in
  Editor.posToOffset (Editor.doc e) (mr_from r) = Editor.selFrom e1
  /\ Editor.posToOffset (Editor.doc e) (mr_to r) = Editor.selTo e1.
Proof.
  intros Hwf.
  pose proof (selectMark_from_to e mk) as Hft.
  pose proof (selectMark_doc e mk) as Hdoc.
  pose proof (selectMark_wf e mk Hwf) as Hwf1.
  destruct (selectMarkRegionIfInside e mk) as [r e1]. simpl in *.
  destruct Hft as [-> ->]. unfold Editor.getCursorFrom, Editor.getCursorTo.
  rewrite Hdoc. pose proof (EditorFacts.selTo_le e1 Hwf1).
  pose proof (EditorFacts.selFrom_le_selTo e1).
  rewrite Hdoc in H.
  split; apply EditorFacts.posToOffset_offsetToPos; lia.
Qed.

Lemma eraseHighlight_doc st e :
  Editor.wf e ->
  let e1 := (selectMarkRegionIfInside e true).2 in
  let a := Editor.selFrom e1 in
  let b := Editor.selTo e1 in
  Editor.doc (eraseHighlight st e)
  = take a (Editor.doc e)
    ++ stripMarks (Editor.slice (Editor.doc e) a b)
    ++ drop b (Editor.doc e).
Proof.
  intros Hwf. unfold eraseHighlight.
  pose proof (selectMark_offsets e true Hwf) as Hoff.
  pose proof (selectMark_doc e true) as Hdoc.
  destruct (selectMarkRegionIfInside e true) as [r e1]. simpl in *.
  destruct Hoff as [Ha Hb].
  pose proof (EditorFacts.selFrom_le_selTo e1) as Hab.
  assert (Editor.doc (Editor.replaceRange e1
            (stripMarks (Editor.getRange e1 (mr_from r) (mr_to r)))
            (mr_from r) (mr_to r))
          = take (Editor.selFrom e1) (Editor.doc e)
            ++ stripMarks (Editor.slice (Editor.doc e) (Editor.selFrom e1) (Editor.selTo e1))
            ++ drop (Editor.selTo e1) (Editor.doc e)) as Hrr.
  { unfold Editor.replaceRange, Editor.getRange. simpl.
    rewrite Hdoc, Ha, Hb. by rewrite Nat.max_r. }
  destruct (useTogglingBehavior st && _).
  - by destruct (negb (markSelectionMade r)).
  - by destruct (markSelectionMade r).
Qed.

(** ** Lines of the stripped text *)

Lemma length_splitLines s : length (splitLines s) = S (breakCount s).
Proof.
  induction s as [|c r IH]; simpl; [done|].
  destruct (eqc c NL); simpl; [by rewrite IH|].
  destruct (splitLines r); simpl in *; lia.
Qed.

Lemma finalSegment_no_break s : breakCount s = 0 -> finalSegment s = s.
Proof.
  destruct s as [|c r]; simpl; [done|].
  destruct (eqc c NL); simpl; [lia|]. by intros ->.
Qed.

Lemma breakCount_noLineBreak s : breakCount s = 0 <-> noLineBreak s = true.
Proof.
  induction s as [|c r IH]; simpl; [done|].
  destruct (eqc c NL); simpl; [split; [lia|done]|done].
Qed.

Lemma breakCount_app x y : breakCount (x ++ y) = breakCount x + breakCount y.
Proof. induction x as [|c x IH]; simpl; [done|]. rewrite IH. lia. Qed.

Lemma finalSegment_app_break x y :
  breakCount y = 0 -> finalSegment (x ++ NL :: y) = y.
Proof.
  intros Hy. induction x as [|c x IH]; simpl.
  - by rewrite Hy.
  - rewrite breakCount_app. simpl.
    destruct (Nat.ltb_spec 0 (breakCount x + S (breakCount y))); [done|lia].
Qed.

Lemma last_splitLines s :
  nth (breakCount s) (splitLines s) [] = finalSegment s.
Proof.
  induction s as [|c r IH]; simpl; [done|].
  pose proof (length_splitLines r) as Hlen.
  destruct (eqc c NL) eqn:Hc; simpl.
  - rewrite IH. destruct (breakCount r) eqn:Hb; simpl; [|done].
    by apply finalSegment_no_break.
  - destruct (splitLines r) as [|l ls]; [done|].
    destruct (breakCount r) eqn:Hb; simpl in *.
    + rewrite IH. f_equal. by apply finalSegment_no_break.
    + done.
Qed.

Lemma eraseNewTo_eq from s :
  eraseNewTo from s
  = if Nat.eqb (breakCount s) 0
    then Editor.mkPos (Editor.line from) (Editor.ch from + Z.of_nat (length s))
    else Editor.mkPos (Editor.line from + Z.of_nat (breakCount s))
                      (Z.of_nat (length (finalSegment s))).
Proof.
  unfold eraseNewTo. rewrite length_splitLines.
  pose proof (last_splitLines s) as Hlast.
  destruct (breakCount s) eqn:Hb; simpl.
  - rewrite Hlast. by rewrite finalSegment_no_break.
  - rewrite Hlast. f_equal. lia.
Qed.

(** ** Erase *)

(** C4: with toggling enabled and a non-empty stripped text, [eraseHighlight]
    ends on [newTo], where [newTo] is [from] moved right by the length of the
    stripped text when that text has no line break, and otherwise lies
    [breakCount] lines below [from] at the column given by the length of the
    segment after the last break; a stripped text of three lines gives
    [from.line + 2] and the length of the third line. *)
Theorem eraseHighlight_newTo st e :
  useTogglingBehavior st = true ->
  let r := (selectMarkRegionIfInside e true).1 in
  let e1 := (selectMarkRegionIfInside e true).2 in
  let from := mr_from r in
  let newStr := stripMarks (Editor.getRange e1 from (mr_to r)) in
  let e2 := Editor.replaceRange e1 newStr from (mr_to r) in
  let newTo :=
    if Nat.eqb (breakCount newStr) 0
    then Editor.mkPos (Editor.line from) (Editor.ch from + Z.of_nat (length newStr))
    else Editor.mkPos (Editor.line from + Z.of_nat (breakCount newStr))
                      (Z.of_nat (length (finalSegment newStr))) in
  newStr <> [] ->
  eraseHighlight st e
  = (if markSelectionMade r then Editor.setCursor e2 newTo
     else Editor.setSelection e2 from newTo)
  /\ (forall l1 l2 l3,
        newStr = l1 ++ NL :: l2 ++ NL :: l3 ->
        noLineBreak l1 = true -> noLineBreak l2 = true -> noLineBreak l3 = true ->
        newTo = Editor.mkPos (Editor.line from + 2) (Z.of_nat (length l3))).
Proof.
  intros Htog r e1 from newStr e2 newTo Hne. split.
  - unfold eraseHighlight.
    subst r e1 from newStr e2 newTo.
    destruct (selectMarkRegionIfInside e true) as [r e1]. simpl in *.
    rewrite Htog. simpl.
    destruct (stripMarks _) as [|c s] eqn:Hs; [done|].
    rewrite eraseNewTo_eq.
    replace (0 <? length (c :: s)) with true by done. simpl.
    by destruct (markSelectionMade r).
  - intros l1 l2 l3 Hs H1 H2 H3. subst newTo. rewrite Hs.
    apply breakCount_noLineBreak in H1, H2, H3.
    rewrite (app_comm_cons l2 (NL :: l3) NL), app_assoc.
    rewrite finalSegment_app_break by done.
    rewrite <- app_assoc, <- app_comm_cons.
    rewrite breakCount_app. simpl. rewrite breakCount_app. simpl.
    rewrite H1, H2, H3. simpl. done.
Qed.

(** C5: erasing a region in which none of the three patterns matches leaves
    the text of the buffer as it was. *)
Theorem eraseHighlight_no_markup st e :
  Editor.wf e ->
  let r := (selectMarkRegionIfInside e true).1 in
  let currentStr := Editor.getRange e (mr_from r) (mr_to r) in
  hasMatch markStyleRe currentStr = false ->
  hasMatch markClassRe currentStr = false ->
  hasMatch markCloseRe currentStr = false ->
  Editor.doc (eraseHighlight st e) = Editor.doc e.
Proof.
  intros Hwf r currentStr H1 H2 H3.
  rewrite (eraseHighlight_doc st e Hwf).
  pose proof (selectMark_offsets e true Hwf) as Hoff.
  subst r currentStr. unfold Editor.getRange in *.
  destruct (selectMarkRegionIfInside e true) as [r e1]. simpl in *.
  destruct Hoff as [Ha Hb]. rewrite Ha, Hb in H1, H2, H3.
  rewrite (stripMarks_no_match _ H1 H2 H3).
  apply EditorFacts.slice_full, EditorFacts.selFrom_le_selTo.
Qed.

(** C10: [eraseHighlight] rewrites the document between the offsets of the
    span returned by the locator and nowhere else: the text before [from] and
    the text after [to] are kept as they are. *)
Theorem eraseHighlight_frame st e :
  Editor.wf e ->
  let r := (selectMarkRegionIfInside e true).1 in
  let a := Editor.posToOffset (Editor.doc e) (mr_from r) in
  let b := Editor.posToOffset (Editor.doc e) (mr_to r) in
  a <= b <= length (Editor.doc e)
  /\ Editor.doc (eraseHighlight st e)
     = take a (Editor.doc e)
       ++ stripMarks (Editor.getRange e (mr_from r) (mr_to r))
       ++ drop b (Editor.doc e).
Proof.
  intros Hwf r a b.
  pose proof (eraseHighlight_doc st e Hwf) as Hd.
  pose proof (selectMark_offsets e true Hwf) as Hoff.
  pose proof (selectMark_wf e true Hwf) as Hwf1.
  pose proof (selectMark_doc e true) as Hdoc.
  subst r a b. unfold Editor.getRange.
  destruct (selectMarkRegionIfInside e true) as [r e1]. simpl in *.
  destruct Hoff as [-> ->]. split; [|done].
  pose proof (EditorFacts.selTo_le e1 Hwf1).
  pose proof (EditorFacts.selFrom_le_selTo e1). rewrite Hdoc in *. lia.
Qed.

(** ** [indexOf] *)

Lemma indexOfAux_Some needle s k i :
  indexOfAux needle s k = Some i ->
  exists j, i = k + j /\ startsWith needle (drop j s) = true
            /\ forall j', j' < j -> startsWith needle (drop j' s) = false.
Proof.
  revert k. induction s as [|c r IH]; intros k; simpl.
  - destruct (startsWith needle []) eqn:H0; [|done].
    intros [= <-]. exists 0. split; [lia|]. split; [done|]. intros; lia.
  - destruct (startsWith needle (c :: r)) eqn:H0.
    + intros [= <-]. exists 0. split; [lia|]. split; [done|]. intros; lia.
    + intros H. apply IH in H as (j & -> & Hj & Hlt).
      exists (S j). split; [lia|]. split; [done|].
      intros [|j'] Hj'; [done|]. apply Hlt. lia.
Qed.

Lemma indexOfAux_None needle s k :
  indexOfAux needle s k = None ->
  forall j, startsWith needle (drop j s) = false.
Proof.
  revert k. induction s as [|c r IH]; intros k; simpl.
  - destruct (startsWith needle []) eqn:H0; [done|]. intros _ j. by rewrite drop_nil.
  - destruct (startsWith needle (c :: r)) eqn:H0; [done|].
    intros H [|j]; [done|]. simpl. by eapply IH.
Qed.

Lemma indexOf_Some needle s pos i :
  pos <= length s ->
  indexOf needle s pos = Some i -> firstAt needle s pos i.
Proof.
  intros Hpos. unfold indexOf. rewrite Nat.min_l by done.
  intros H. apply indexOfAux_Some in H as (j & -> & Hj & Hlt).
  rewrite drop_drop in Hj. split; [lia|]. split; [done|].
  intros j' Hj'. specialize (Hlt (j' - pos)). rewrite drop_drop in Hlt.
  replace (pos + (j' - pos)) with j' in Hlt by lia. apply Hlt. lia.
Qed.

Lemma indexOf_None needle s pos :
  pos <= length s ->
  indexOf needle s pos = None -> noneFrom needle s pos.
Proof.
  intros Hpos. unfold indexOf. rewrite Nat.min_l by done.
  intros H j Hj. pose proof (indexOfAux_None _ _ _ H (j - pos)) as Hn.
  rewrite drop_drop in Hn. by replace (pos + (j - pos)) with j in Hn by lia.
Qed.

Lemma firstAt_bound needle s pos i :
  needle <> [] -> firstAt needle s pos i -> i + length needle <= length s.
Proof.
  intros Hne (_ & H & _). apply startsWith_length in H.
  rewrite length_drop in H. destruct needle; [done|]. simpl in *. lia.
Qed.

(** ** The scan of [selectMarkRegionIfInside] *)

Lemma markScan_spec lineText cursorCh fuel pos :
  pos <= length lineText ->
  length lineText < fuel + pos ->
  exists res, markScan fuel lineText cursorCh pos = Done res
              /\ MarkRegion lineText cursorCh pos res.
Proof.
  revert pos. induction fuel as [|fuel IH]; intros pos Hpos Hfuel; [lia|].
  cbn [markScan]. change (length (lit "</mark>")) with 7.
  destruct (indexOf (lit "<mark") lineText pos) as [o|] eqn:Ho.
  2:{ exists None. split; [done|]. apply MarkRegion_no_open.
      by apply indexOf_None. }
  apply indexOf_Some in Ho; [|done].
  pose proof (firstAt_bound (lit "<mark") _ _ _ ltac:(discriminate) Ho) as Hob.
  simpl in Hob.
  destruct (indexOf (lit "</mark>") lineText o) as [c|] eqn:Hc.
  2:{ exists None. split; [done|]. eapply MarkRegion_no_close; [done|].
      apply indexOf_None; [lia|done]. }
  apply indexOf_Some in Hc; [|lia].
  pose proof (firstAt_bound (lit "</mark>") _ _ _ ltac:(discriminate) Hc) as Hcb.
  simpl in Hcb.
  pose proof (proj1 Ho) as Hpo. pose proof (proj1 Hc) as Hoc.
  rewrite Z.geb_leb.
  destruct (Z.leb_spec (Z.of_nat o) cursorCh) as [H1|H1];
    [destruct (Z.leb_spec cursorCh (Z.of_nat (c + 7))) as [H2|H2]|]; simpl.
  - exists (Some (o, c + 7)). split; [done|].
    apply MarkRegion_inside; [done|done|lia].
  - destruct (IH (c + 7)) as (res & Hres & Hspec); [lia|lia|].
    exists res. split; [done|].
    eapply MarkRegion_skip; [done|done|lia|done].
  - destruct (IH (c + 7)) as (res & Hres & Hspec); [lia|lia|].
    exists res. split; [done|].
    eapply MarkRegion_skip; [done|done|lia|done].
Qed.

Lemma locateMark_spec lineText cursorCh :
  exists res, locateMark lineText cursorCh = Done res
              /\ MarkRegion lineText cursorCh 0 res.
Proof. apply markScan_spec; lia. Qed.

Lemma MarkRegion_bound lineText cursorCh pos o c :
  MarkRegion lineText cursorCh pos (Some (o, c)) ->
  o <= c <= length lineText.
Proof.
  remember (Some (o, c)) as res eqn:Hres.
  induction 1 as [| |pos o' c' Ho Hc Hin|]; try done; [|auto].
  injection Hres as E1 E2. subst o c.
  pose proof (firstAt_bound (lit "</mark>") _ _ _ ltac:(discriminate) Hc) as Hcb.
  simpl in Hcb. destruct Hc as [? _]. lia.
Qed.

(** ** Lines of the document *)

Module EditorLines.

Lemma lineColOf_line_le d : forall o, (Editor.lineColOf d o).1 <= breakCount d.
Proof.
  induction d as [|x r IH]; intros [|o]; simpl; try lia.
  specialize (IH o). destruct (Editor.lineColOf r o) as [l c]. simpl in *.
  destruct (eqc x NL); simpl; [lia|]. destruct l; simpl; lia.
Qed.

Lemma lineColOf_col_le d :
  forall o, (Editor.lineColOf d o).2
            <= length (Editor.lineAt d (Editor.lineColOf d o).1).
Proof.
  induction d as [|x r IH]; intros [|o]; simpl; try lia.
  specialize (IH o). destruct (Editor.lineColOf r o) as [l c]. simpl in *.
  destruct (eqc x NL) eqn:Hx; simpl; rewrite ?Hx; [done|].
  destruct l; simpl; rewrite ?Hx; simpl; lia.
Qed.

Lemma offsetOf_add d :
  forall l k, l <= breakCount d -> k <= length (Editor.lineAt d l) ->
              Editor.offsetOf d l k = Editor.offsetOf d l 0 + k.
Proof.
  induction d as [|x r IH]; intros l k Hl Hk; simpl in *; [lia|].
  destruct (eqc x NL); simpl in *.
  - destruct l; simpl in *; [lia|]. rewrite (IH l k); lia.
  - destruct l; simpl in *.
    + destruct k; [done|]. rewrite (IH 0 k), EditorFacts.offsetOf_col0; lia.
    + rewrite (IH (S l) k); lia.
Qed.

Lemma lineColOf_offsetOf d :
  forall l k, l <= breakCount d -> k <= length (Editor.lineAt d l) ->
              Editor.lineColOf d (Editor.offsetOf d l k) = (l, k).
Proof.
  induction d as [|x r IH]; intros l k Hl Hk; simpl in *.
  - by replace l with 0 by lia; replace k with 0 by lia.
  - destruct (eqc x NL) eqn:Hx; simpl in *.
    + destruct l; simpl in *; [by replace k with 0 by lia|].
      rewrite (IH l k) by lia. by rewrite ?Hx.
    + destruct l; simpl in *.
      * destruct k; [done|]. simpl. rewrite (IH 0 k) by lia. by rewrite ?Hx.
      * rewrite (IH (S l) k) by lia. by rewrite ?Hx.
Qed.

Lemma slice_cons x r a b : Editor.slice (x :: r) (S a) (S b) = Editor.slice r a b.
Proof. done. Qed.

Lemma slice_offsetOf d :
  forall l c1 c2,
    Editor.slice d (Editor.offsetOf d l c1) (Editor.offsetOf d l c2)
    = Editor.slice (Editor.lineAt d l) c1 c2.
Proof.
  induction d as [|x r IH]; intros l c1 c2; simpl.
  - unfold Editor.slice. by rewrite !drop_nil, !take_nil.
  - destruct (eqc x NL) eqn:Hx.
    + destruct l; [|by rewrite slice_cons].
      unfold Editor.slice. by rewrite !drop_nil, !take_nil.
    + destruct l; [|by rewrite slice_cons].
      destruct c1, c2; try done.
      * specialize (IH 0 0 c2). rewrite EditorFacts.offsetOf_col0 in IH.
        unfold Editor.slice in *. simpl in *. rewrite !Nat.sub_0_r in IH.
        rewrite !drop_0 in IH. by rewrite IH.
      * by rewrite !slice_cons.
Qed.

Lemma noLineBreak_lineAt d : forall l, noLineBreak (Editor.lineAt d l) = true.
Proof.
  induction d as [|x r IH]; intros l; simpl; [done|].
  destruct (eqc x NL) eqn:Hx; destruct l; simpl; rewrite ?Hx; simpl; auto.
Qed.

Lemma noLineBreak_take n s : noLineBreak s = true -> noLineBreak (take n s) = true.
Proof.
  revert n. induction s as [|c s IH]; intros [|n]; simpl; try done.
  rewrite !andb_true_iff. intros [? ?]. auto.
Qed.

Lemma noLineBreak_drop n s : noLineBreak s = true -> noLineBreak (drop n s) = true.
Proof.
  revert n. induction s as [|c s IH]; intros [|n]; simpl; try done.
  rewrite !andb_true_iff. intros [? ?]. auto.
Qed.

Lemma noLineBreak_app x y :
  noLineBreak (x ++ y) = noLineBreak x && noLineBreak y.
Proof. apply forallb_app. Qed.

(** An empty selection of a well-formed editor is a caret. *)
Lemma empty_selection e :
  Editor.wf e -> Editor.getSelection e = [] -> Editor.anchor e = Editor.head e.
Proof.
  intros [Ha Hh] H. apply (f_equal length) in H.
  unfold Editor.getSelection, Editor.slice, Editor.selFrom, Editor.selTo in H.
  rewrite length_take, length_drop in H. simpl in H. lia.
Qed.

(** Selecting columns [s..t] of an existing line gives back those columns. *)
Lemma setSelection_line e (l s t : nat) :
  l <= breakCount (Editor.doc e) ->
  s <= t -> t <= length (Editor.lineAt (Editor.doc e) l) ->
  let e' := Editor.setSelection e (Editor.mkPos (Z.of_nat l) (Z.of_nat s))
              (Editor.mkPos (Z.of_nat l) (Z.of_nat t)) in
  Editor.getCursorFrom e' = Editor.mkPos (Z.of_nat l) (Z.of_nat s)
  /\ Editor.getCursorTo e' = Editor.mkPos (Z.of_nat l) (Z.of_nat t)
  /\ Editor.getSelection e' = Editor.slice (Editor.lineAt (Editor.doc e) l) s t.
Proof.
  intros Hl Hst Ht e'.
  unfold Editor.getCursorFrom, Editor.getCursorTo, Editor.getSelection,
    Editor.selFrom, Editor.selTo. subst e'. simpl.
  rewrite !EditorFacts.posToOffset_mkPos.
  rewrite (offsetOf_add _ l s), (offsetOf_add _ l t) by lia.
  rewrite Nat.min_l, Nat.max_r by lia.
  rewrite <- !offsetOf_add by lia.
  unfold Editor.offsetToPos. rewrite !lineColOf_offsetOf by lia.
  by rewrite slice_offsetOf.
Qed.

End EditorLines.

(** ** [selectRegion.ts] *)

Lemma getCursor_line e :
  let '(l, c) := Editor.lineColOf (Editor.doc e) (Editor.head e) in
  Editor.getCursor e = Editor.mkPos (Z.of_nat l) (Z.of_nat c)
  /\ Editor.getLine e (Z.of_nat l) = Editor.lineAt (Editor.doc e) l
  /\ l <= breakCount (Editor.doc e)
  /\ c <= length (Editor.lineAt (Editor.doc e) l).
Proof.
  pose proof (EditorLines.lineColOf_line_le (Editor.doc e) (Editor.head e)) as Hl.
  pose proof (EditorLines.lineColOf_col_le (Editor.doc e) (Editor.head e)) as Hc.
  unfold Editor.getCursor, Editor.offsetToPos, Editor.getLine.
  destruct (Editor.lineColOf _ _) as [l c]. simpl in *.
  destruct (Z.ltb_spec (Z.of_nat l) 0); [lia|]. by rewrite Nat2Z.id.
Qed.

Lemma caret_from_to e :
  Editor.anchor e = Editor.head e ->
  Editor.getCursorFrom e = Editor.getCursor e
  /\ Editor.getCursorTo e = Editor.getCursor e.
Proof.
  intros H. unfold Editor.getCursorFrom, Editor.getCursorTo, Editor.getCursor,
    Editor.selFrom, Editor.selTo.
  rewrite H, Nat.min_id, Nat.max_id. done.
Qed.

(** C6: without an active selection, [selectMarkRegionIfInside] scans the
    line of the cursor from the left for pairs of [<mark] and the first
    [</mark>] after it, and selects the first pair whose bracket, from the
    [<] to the end of [</mark>], contains the cursor column: the editor it
    leaves has this bracket as its selection, and the result reports its
    two ends and its text.  A pair that does not contain the column moves
    the scan to the end of its closing tag, and a missing opening or closing
    tag ends the scan with nothing selected and the editor as it was. *)
Theorem selectMarkRegionIfInside_region e :
  Editor.wf e ->
  Editor.getSelection e = [] ->
  let cursor := Editor.getCursor e in
  let lineText := Editor.getLine e (Editor.line cursor) in
  let r := (selectMarkRegionIfInside e true).1 in
  let e1 := (selectMarkRegionIfInside e true).2 in
  exists res,
    locateMark lineText (Editor.ch cursor) = Done res
    /\ MarkRegion lineText (Editor.ch cursor) 0 res
    /\ match res with
       | Some (openStart, closeEnd) =>
           let from := Editor.mkPos (Editor.line cursor) (Z.of_nat openStart) in
           let to := Editor.mkPos (Editor.line cursor) (Z.of_nat closeEnd) in
           markSelectionMade r = true
           /\ mr_from r = from
           /\ mr_to r = to
           /\ mr_selection r = Editor.slice lineText openStart closeEnd
           /\ e1 = Editor.setSelection e from to
           /\ Editor.doc e1 = Editor.doc e
           /\ Editor.getCursorFrom e1 = from
           /\ Editor.getCursorTo e1 = to
           /\ Editor.getSelection e1 = Editor.slice lineText openStart closeEnd
       | None =>
           markSelectionMade r = false /\ mr_from r = cursor /\ mr_to r = cursor
           /\ mr_selection r = [] /\ e1 = e
       end.
Proof.
  intros Hwf Hsel cursor lineText r e1.
  destruct (locateMark_spec lineText (Editor.ch cursor)) as (res & Hloc & Hspec).
  exists res. split; [done|]. split; [done|].
  subst r e1. unfold selectMarkRegionIfInside. rewrite Hsel. cbn [negb truthy].
  fold cursor. fold lineText. rewrite Hloc.
  pose proof (EditorLines.empty_selection e Hwf Hsel) as Hcaret.
  destruct res as [[o c]|].
  - pose proof (MarkRegion_bound _ _ _ _ _ Hspec) as Hb.
    cbn [fst snd markSelectionMade mr_from mr_to mr_selection].
    pose proof (getCursor_line e) as Hcur. subst lineText cursor.
    destruct (Editor.lineColOf _ _) as [l k].
    destruct Hcur as (Hcur & Hline & Hl & Hk). rewrite Hcur in *.
    cbn [Editor.line Editor.ch] in *. rewrite Hline in *.
    destruct (EditorLines.setSelection_line e l o c Hl) as (Hf & Ht & Hs); [lia..|].
    cbv zeta. rewrite Hf, Ht, Hs. by repeat apply conj.
  - cbn [fst snd markSelectionMade mr_from mr_to mr_selection].
    by destruct (caret_from_to e Hcaret) as [-> ->].
Qed.

Lemma notSpaceAt_true lineText i :
  notSpaceAt lineText i = true <-> lineText !! i <> Some SPACE.
Proof.
  unfold notSpaceAt. destruct (lineText !! i) as [c|]; [|done].
  rewrite negb_true_iff, eqc_neq. split; congruence.
Qed.

Lemma notSpaceAt_false lineText i :
  notSpaceAt lineText i = false <-> lineText !! i = Some SPACE.
Proof.
  unfold notSpaceAt. destruct (lineText !! i) as [c|]; [|done].
  rewrite negb_false_iff, eqc_eq. split; congruence.
Qed.

Lemma wordStart_spec lineText k :
  let s := wordStart lineText k in
  s <= k
  /\ (forall i, s <= i < k -> lineText !! i <> Some SPACE)
  /\ (s = 0 \/ lineText !! (s - 1) = Some SPACE).
Proof.
  induction k as [|k IH]; simpl.
  - split; [lia|]. split; [intros; lia|by left].
  - destruct (notSpaceAt lineText k) eqn:Hk.
    + destruct IH as (H1 & H2 & H3). split; [lia|]. split; [|done].
      intros i Hi. destruct (decide (i = k)) as [->|Hne].
      * by apply notSpaceAt_true.
      * apply H2. lia.
    + split; [lia|]. split; [intros; lia|]. right. simpl.
      rewrite Nat.sub_0_r. by apply notSpaceAt_false.
Qed.

Lemma wordEndLoop_spec lineText fuel k :
  length lineText <= fuel + k ->
  k <= length lineText ->
  let t := wordEndLoop fuel lineText k in
  k <= t <= length lineText
  /\ (forall i, k <= i < t -> lineText !! i <> Some SPACE)
  /\ (t = length lineText \/ lineText !! t = Some SPACE).
Proof.
  revert k. induction fuel as [|fuel IH]; intros k Hf Hk; simpl.
  - split; [lia|]. split; [intros; lia|]. left. lia.
  - destruct (Nat.ltb_spec k (length lineText)) as [Hlt|Hge]; simpl.
    + destruct (notSpaceAt lineText k) eqn:Hn.
      * destruct (IH (S k)) as (H1 & H2 & H3); [lia..|].
        split; [lia|]. split; [|done].
        intros i Hi. destruct (decide (i = k)) as [->|Hne].
        -- by apply notSpaceAt_true.
        -- apply H2. lia.
      * split; [lia|]. split; [intros; lia|]. right. by apply notSpaceAt_false.
    + split; [lia|]. split; [intros; lia|]. left. lia.
Qed.

Lemma wordAround_computed lineText k :
  k <= length lineText ->
  wordAround lineText k (wordStart lineText k) (wordEnd lineText k).
Proof.
  intros Hk. destruct (wordStart_spec lineText k) as (S1 & S2 & S3).
  destruct (wordEndLoop_spec lineText (length lineText - k) k) as (E1 & E2 & E3);
    [lia..|].
  fold (wordEnd lineText k) in *. unfold wordAround.
  split; [lia|]. split; [lia|]. split; [|done].
  intros i Hi. destruct (decide (i < k)); [apply S2|apply E2]; lia.
Qed.

Lemma selectWordIfNone_caret e :
  Editor.wf e ->
  Editor.getSelection e = [] ->
  let cursor := Editor.getCursor e in
  let lineText := Editor.getLine e (Editor.line cursor) in
  let w := (selectWordIfNone e).1 in
  exists s t,
    wordAround lineText (Z.to_nat (Editor.ch cursor)) s t
    /\ ws_from w = Editor.mkPos (Editor.line cursor) (Z.of_nat s)
    /\ ws_to w = Editor.mkPos (Editor.line cursor) (Z.of_nat t)
    /\ ws_selection w = Editor.slice lineText s t
    /\ Editor.getSelection (selectWordIfNone e).2 = ws_selection w
    /\ wordSelected w = true.
Proof.
  intros Hwf Hsel cursor lineText w.
  subst w. unfold selectWordIfNone. rewrite Hsel. simpl.
  fold cursor. fold lineText.
  pose proof (getCursor_line e) as Hcur. subst lineText cursor.
  destruct (Editor.lineColOf _ _) as [l k].
  destruct Hcur as (Hcur & Hline & Hl & Hk). rewrite Hcur in *. simpl in *.
  rewrite Hline, Nat2Z.id.
  set (lineText := Editor.lineAt (Editor.doc e) l) in *.
  pose proof (wordAround_computed lineText k Hk) as Hw.
  exists (wordStart lineText k), (wordEnd lineText k). split; [done|].
  destruct Hw as (Hskt & Ht & _).
  destruct (EditorLines.setSelection_line e l (wordStart lineText k)
              (wordEnd lineText k) Hl) as (Hf & Hto & Hs); [lia|done|].
  by rewrite Hf, Hto, Hs.
Qed.

(** What [selectWordIfNone] hands to [applyCommand]. *)
Lemma selectWordIfNone_result e :
  Editor.wf e ->
  let w := (selectWordIfNone e).1 in
  let e1 := (selectWordIfNone e).2 in
  Editor.wf e1 /\ Editor.doc e1 = Editor.doc e
  /\ ws_from w = Editor.getCursorFrom e1 /\ ws_to w = Editor.getCursorTo e1
  /\ ws_selection w = Editor.getSelection e1.
Proof.
  intros Hwf. unfold selectWordIfNone.
  destruct (negb (truthy (Editor.getSelection e))); simpl; [|done].
  split; [apply EditorFacts.wf_setSelection|done].
Qed.

(** C7: without an active selection, [selectWordIfNone] selects the word
    around the cursor, grown to the left and to the right over every code
    unit that is not a space up to a space or an end of the line, and reports
    it with [wordSelected]; on the line [abc def ghi] with the cursor at
    column 5 this is columns 4 to 7, the word [def]. *)
Theorem selectWordIfNone_word :
  (forall e,
     Editor.wf e ->
     Editor.getSelection e = [] ->
     let cursor := Editor.getCursor e in
     let lineText := Editor.getLine e (Editor.line cursor) in
     let w := (selectWordIfNone e).1 in
     exists s t,
       wordAround lineText (Z.to_nat (Editor.ch cursor)) s t
       /\ ws_from w = Editor.mkPos (Editor.line cursor) (Z.of_nat s)
       /\ ws_to w = Editor.mkPos (Editor.line cursor) (Z.of_nat t)
       /\ ws_selection w = Editor.slice lineText s t
       /\ Editor.getSelection (selectWordIfNone e).2 = ws_selection w
       /\ wordSelected w = true)
  /\ (let e := Editor.mk (lit "abc def ghi") 5 5 in
      let w := (selectWordIfNone e).1 in
      ws_from w = Editor.mkPos 0 4 /\ ws_to w = Editor.mkPos 0 7
      /\ ws_selection w = lit "def" /\ wordSelected w = true).
Proof.
  split; [apply selectWordIfNone_caret|by vm_compute].
Qed.

(** ** Stripping freshly inserted markup *)

Lemma occursIn_false_drop needle s i :
  occursIn needle s = false -> startsWith needle (drop i s) = false.
Proof.
  revert i. induction s as [|c r IH]; intros i H; simpl in H.
  - rewrite drop_nil. by apply orb_false_iff in H as [? _].
  - apply orb_false_iff in H as [H1 H2]. destruct i; simpl; auto.
Qed.

Lemma hasMatch_openTag opener s :
  occursIn opener s = false -> hasMatch (matchOpenTag opener) s = false.
Proof.
  induction s as [|c r IH]; simpl; intros H; apply orb_false_iff in H as [H1 H2].
  - unfold matchOpenTag. by rewrite H1.
  - unfold matchOpenTag at 1. rewrite H1. simpl. auto.
Qed.

(** A needle whose only [<] is its first code unit cannot start inside [x]
    and run across a following [<]. *)
Lemma startsWith_before_LT n x y :
  noLT n = true -> startsWith n (x ++ LT :: y) = true -> startsWith n x = true.
Proof.
  revert x. induction n as [|a n IH]; intros x Hn; simpl; [done|].
  simpl in Hn. apply andb_true_iff in Hn as [Ha Hn].
  destruct x as [|b x]; simpl.
  - rewrite andb_true_iff. intros [H _]. by rewrite H in Ha.
  - rewrite !andb_true_iff. intros [? ?]. auto.
Qed.

Lemma startsWith_across_LT n x y i :
  noLT n = true -> i < length x ->
  occursIn (LT :: n) x = false ->
  startsWith (LT :: n) (drop i x ++ LT :: y) = false.
Proof.
  intros Hn Hi Hocc.
  pose proof (occursIn_false_drop _ _ i Hocc) as Hd.
  destruct (drop i x) as [|b r] eqn:Hdr.
  - apply (f_equal length) in Hdr. rewrite length_drop in Hdr. simpl in Hdr. lia.
  - cbn [startsWith app] in *. destruct (eqc LT b); [|done].
    rewrite andb_true_l in *.
    destruct (startsWith n (r ++ LT :: y)) eqn:Hs; [|done].
    apply startsWith_before_LT in Hs; [|done]. congruence.
Qed.

Lemma occursIn_app_LT n x y :
  noLT n = true ->
  occursIn (LT :: n) x = false ->
  occursIn (LT :: n) (LT :: y) = false ->
  occursIn (LT :: n) (x ++ LT :: y) = false.
Proof.
  intros Hn Hx Hy. induction x as [|c x IH]; [done|].
  pose proof (startsWith_across_LT n (c :: x) y 0 Hn ltac:(simpl; lia) Hx) as H0.
  cbn [occursIn app]. simpl drop in H0. cbn [app] in H0. rewrite H0. simpl.
  apply IH. simpl in Hx. by apply orb_false_iff in Hx as [_ ?].
Qed.

Lemma startsWith_in_noLT n x y i :
  noLT x = true -> i < length x ->
  startsWith (LT :: n) (drop i x ++ y) = false.
Proof.
  intros Hx Hi.
  destruct (drop i x) as [|b r] eqn:Hdr.
  - apply (f_equal length) in Hdr. rewrite length_drop in Hdr. simpl in Hdr. lia.
  - assert (noLT (b :: r) = true) as Hb.
    { rewrite <- Hdr. unfold noLT in *. rewrite forallb_forall in *.
      intros c Hc. apply Hx. apply list_elem_of_In. apply list_elem_of_In in Hc.
      apply (subseteq_drop i). done. }
    cbn [noLT forallb startsWith app] in *. apply andb_true_iff in Hb as [Hb _].
    apply negb_true_iff in Hb. by rewrite eqc_sym, Hb.
Qed.

(** The attribute text up to the closing quote is consumed as a whole by
    the lazy star, since it holds neither [>] nor a line terminator. *)
Lemma lazyTagTail_plain x y :
  plainAttr x = true ->
  lazyTagTail (x ++ DQ :: GT :: y) = Some (length x + 2).
Proof.
  induction x as [|c x IH]; intros Hx; [done|].
  simpl in Hx. apply andb_true_iff in Hx as [Hc Hx].
  apply negb_true_iff in Hc. apply orb_false_iff in Hc as [Hc Hlt].
  apply orb_false_iff in Hc as [_ Hgt].
  cbn [app lazyTagTail]. rewrite Hlt, (IH Hx).
  replace (startsWith [GT] (x ++ DQ :: GT :: y)) with false; [by rewrite andb_false_r|].
  destruct x as [|d x]; [done|].
  simpl in Hx. apply andb_true_iff in Hx as [Hd _].
  apply negb_true_iff in Hd. apply orb_false_iff in Hd as [Hd _].
  apply orb_false_iff in Hd as [_ Hd]. cbn [app startsWith].
  by rewrite eqc_sym, Hd.
Qed.

Lemma plainAttr_app x y : plainAttr (x ++ y) = plainAttr x && plainAttr y.
Proof. apply forallb_app. Qed.

Lemma plainAttr_noLT x : plainAttr x = true -> noLT x = true.
Proof.
  unfold plainAttr, noLT. rewrite !forallb_forall. intros H c Hc.
  specialize (H c Hc). apply negb_true_iff in H.
  apply orb_false_iff in H as [H _]. apply orb_false_iff in H as [H _].
  by rewrite H.
Qed.

Lemma plainAttr_noLineBreak x : plainAttr x = true -> noLineBreak x = true.
Proof.
  unfold plainAttr, noLineBreak. rewrite !forallb_forall. intros H c Hc.
  specialize (H c Hc). apply negb_true_iff in H.
  apply orb_false_iff in H as [_ H]. unfold isLineTerminator in H.
  apply orb_false_iff in H as [H _]. by rewrite H.
Qed.

Lemma matchOpenTag_whole opener x y :
  plainAttr x = true ->
  matchOpenTag opener (opener ++ x ++ DQ :: GT :: y)
  = Some (length (opener ++ x ++ [DQ; GT])).
Proof.
  intros Hx. unfold matchOpenTag.
  rewrite startsWith_app, drop_app_length, (lazyTagTail_plain _ _ Hx). simpl.
  rewrite !length_app. simpl. f_equal.
Qed.

Section Wrapped.

Variable T : text.
Hypothesis T_style : occursIn (lit "<mark style") T = false.
Hypothesis T_class : occursIn (lit "<mark class") T = false.
Hypothesis T_close : occursIn (lit "</mark>") T = false.

Local Abbreviation R := (T ++ lit "</mark>").

Lemma rest_no_opener opener :
  opener = lit "<mark style" \/ opener = lit "<mark class" ->
  replaceAll (matchOpenTag opener) R = R.
Proof.
  intros Hop. apply replaceAll_no_match, hasMatch_openTag.
  destruct Hop as [-> | ->]; by apply occursIn_app_LT.
Qed.

Lemma rest_close : replaceAll markCloseRe R = T.
Proof.
  rewrite replaceAll_app_keep.
  - change (replaceAll markCloseRe (lit "</mark>")) with (@nil ascii).
    by rewrite app_nil_r.
  - intros i Hi. unfold markCloseRe.
    change (lit "</mark>") with (LT :: lit "/mark>").
    by rewrite startsWith_across_LT.
Qed.

(** The opening tag of the other kind is left alone by a substitution. *)
Lemma other_opener_kept opener P' :
  noLT P' = true ->
  startsWith opener (LT :: P' ++ R) = false ->
  opener = lit "<mark style" \/ opener = lit "<mark class" ->
  replaceAll (matchOpenTag opener) ((LT :: P') ++ R) = (LT :: P') ++ R.
Proof.
  intros HP H0 Hop. cbn [app]. rewrite replaceAll_keep.
  2:{ unfold matchOpenTag. by rewrite H0. }
  f_equal. rewrite replaceAll_app_keep.
  - by rewrite (rest_no_opener _ Hop).
  - intros i Hi. unfold matchOpenTag.
    destruct Hop as [-> | ->];
      (change (lit "<mark style") with (LT :: lit "mark style")
       || change (lit "<mark class") with (LT :: lit "mark class"));
      by rewrite startsWith_in_noLT.
Qed.

Lemma own_opener_removed opener x :
  plainAttr x = true ->
  opener = lit "<mark style" \/ opener = lit "<mark class" ->
  replaceAll (matchOpenTag opener) ((opener ++ x ++ [DQ; GT]) ++ R) = R.
Proof.
  intros Hx Hop.
  pose proof (matchOpenTag_whole opener x R Hx) as Hm.
  replace (opener ++ x ++ DQ :: GT :: R) with ((opener ++ x ++ [DQ; GT]) ++ R) in Hm
    by (by rewrite <- !app_assoc).
  destruct (length (opener ++ x ++ [DQ; GT])) as [|n] eqn:Hlen.
  { rewrite !length_app in Hlen. simpl in Hlen. lia. }
  rewrite (replaceAll_match _ _ _ Hm), <- Hlen, drop_app_length.
  by apply rest_no_opener.
Qed.

Lemma stripMarks_style_wrapped x :
  plainAttr x = true ->
  stripMarks ((lit "<mark style" ++ x ++ [DQ; GT]) ++ T ++ lit "</mark>") = T.
Proof.
  intros Hx. unfold stripMarks, markStyleRe, markClassRe.
  rewrite own_opener_removed by auto.
  rewrite rest_no_opener by auto. apply rest_close.
Qed.

Lemma stripMarks_class_wrapped x :
  plainAttr x = true ->
  stripMarks ((lit "<mark class" ++ x ++ [DQ; GT]) ++ T ++ lit "</mark>") = T.
Proof.
  intros Hx. unfold stripMarks, markStyleRe, markClassRe.
  change (lit "<mark class" ++ x ++ [DQ; GT])
    with (LT :: lit "mark class" ++ x ++ [DQ; GT]).
  rewrite other_opener_kept; [|  |done|auto].
  - change (LT :: lit "mark class" ++ x ++ [DQ; GT])
      with (lit "<mark class" ++ x ++ [DQ; GT]).
    rewrite own_opener_removed by auto. apply rest_close.
  - apply plainAttr_noLT in Hx. unfold noLT in *.
    rewrite !forallb_app. rewrite Hx. done.
Qed.

End Wrapped.

(** ** Templates *)

Lemma plain_lowerChar c :
  (eqc (lowerChar c) LT || eqc (lowerChar c) GT || isLineTerminator (lowerChar c))
  = (eqc c LT || eqc c GT || isLineTerminator c).
Proof. by destruct c as [[] [] [] [] [] [] [] []]. Qed.

Lemma plainAttr_toLowerCase s : plainAttr (toLowerCase s) = plainAttr s.
Proof.
  induction s as [|c s IH]; simpl; [done|]. by rewrite plain_lowerChar, IH.
Qed.

Lemma commandsMap_suffix st key : suffixOf (commandsMap st key) = lit "</mark>".
Proof. done. Qed.

Lemma commandsMap_prefix_form st key :
  plainAttr key = true ->
  (forall c, highlighters st !! key = Some c -> plainAttr c = true) ->
  exists x,
    plainAttr x = true
    /\ (CommandPlot.prefix (commandsMap st key) = lit "<mark style" ++ x ++ [DQ; GT]
        \/ CommandPlot.prefix (commandsMap st key) = lit "<mark class" ++ x ++ [DQ; GT]).
Proof.
  intros Hkey Hcol. unfold commandsMap. cbn [CommandPlot.prefix].
  destruct (textEqb (highlighterMethods st) (lit "css-classes")).
  - exists (lit "=" ++ [DQ] ++ lit "hltr-" ++ toLowerCase key).
    split; [|right; reflexivity].
    rewrite !plainAttr_app, plainAttr_toLowerCase, Hkey. done.
  - exists (lit "=" ++ [DQ] ++ lit "background: "
            ++ interpolate (highlighters st !! key) ++ lit ";").
    split; [|left; cbn [lit list_ascii_of_string app]; by rewrite <- app_assoc].
    rewrite !plainAttr_app.
    destruct (highlighters st !! key) as [c|] eqn:Hc; simpl; [|done].
    by rewrite (Hcol c eq_refl).
Qed.

Lemma stripMarks_template st key T :
  plainAttr key = true ->
  (forall c, highlighters st !! key = Some c -> plainAttr c = true) ->
  occursIn (lit "<mark style") T = false ->
  occursIn (lit "<mark class") T = false ->
  occursIn (lit "</mark>") T = false ->
  stripMarks (CommandPlot.prefix (commandsMap st key) ++ T ++ lit "</mark>") = T.
Proof.
  intros Hkey Hcol H1 H2 H3.
  destruct (commandsMap_prefix_form st key Hkey Hcol) as (x & Hx & [-> | ->]).
  - by apply stripMarks_style_wrapped.
  - by apply stripMarks_class_wrapped.
Qed.

Lemma noLineBreak_template st key :
  plainAttr key = true ->
  (forall c, highlighters st !! key = Some c -> plainAttr c = true) ->
  noLineBreak (CommandPlot.prefix (commandsMap st key)) = true.
Proof.
  intros Hkey Hcol.
  destruct (commandsMap_prefix_form st key Hkey Hcol) as (x & Hx & [-> | ->]);
    rewrite !EditorLines.noLineBreak_app, (plainAttr_noLineBreak _ Hx); done.
Qed.

(** ** Apply followed by erase *)

Lemma selectWordIfNone_selected e :
  Editor.getSelection e <> [] ->
  selectWordIfNone e
  = (mkWordSelectionResult (Editor.getSelection e) (Editor.getCursorFrom e)
       (Editor.getCursorTo e) false, e).
Proof.
  intros H. apply truthy_true in H. unfold selectWordIfNone. by rewrite H.
Qed.


Lemma pos_eta (p : EditorPosition) :
  Editor.mkPos (Editor.line p) (Editor.ch p + Z.of_nat 0) = p.
Proof. destruct p. simpl. f_equal. lia. Qed.

(** Replacing the selection by a one-line text and selecting, from the old
    start, as many columns as the text has code units, selects that text. *)
Lemma select_inserted e ins :
  Editor.wf e ->
  noLineBreak ins = true ->
  let from := Editor.getCursorFrom e in
  let e' := Editor.setSelection (Editor.replaceSelection e ins) from
              (Editor.mkPos (Editor.line from)
                 (Editor.ch from + Z.of_nat (length ins))) in
  e' = Editor.mk (take (Editor.selFrom e) (Editor.doc e) ++ ins
                  ++ drop (Editor.selTo e) (Editor.doc e))
         (Editor.selFrom e) (Editor.selFrom e + length ins).
Proof.
  intros Hwf Hins from e'. subst e' from.
  unfold Editor.setSelection, Editor.replaceSelection, Editor.getCursorFrom. simpl.
  pose proof (EditorFacts.selFrom_le_selTo e) as Hab.
  pose proof (EditorFacts.selTo_le e Hwf) as Hb.
  f_equal.
  - rewrite <- (pos_eta (Editor.offsetToPos _ _)).
    rewrite EditorFacts.posToOffset_after_edit; [lia|lia|done|lia].
  - rewrite EditorFacts.posToOffset_after_edit; [lia|lia|done|lia].
Qed.

(** In toggling mode, a selected one-line text without an opening tag is
    wrapped and the whole markup is left selected. *)
Lemma applyCommand_wraps_selection st command e :
  useTogglingBehavior st = true ->
  Editor.wf e ->
  let T := Editor.getSelection e in
  let ins := CommandPlot.prefix command ++ T ++ suffixOf command in
  T <> [] ->
  testOpenMark T = false ->
  noLineBreak ins = true ->
  applyCommand st command e
  = Editor.mk (take (Editor.selFrom e) (Editor.doc e) ++ ins
               ++ drop (Editor.selTo e) (Editor.doc e))
      (Editor.selFrom e) (Editor.selFrom e + length ins).
Proof.
  intros Htog Hwf T ins HT Hopen Hins.
  unfold applyCommand. rewrite (selectWordIfNone_selected e HT).
  cbn [ws_selection ws_from ws_to wordSelected]. fold T.
  rewrite Htog, Hopen, andb_false_r.
  pose proof (proj2 (truthy_true T) HT) as Htr. rewrite Htr.
  assert ((0 <? length T) = true) as Hlen.
  { apply Nat.ltb_lt. destruct T; [done|simpl; lia]. }
  rewrite Hlen. cbn [andb negb]. fold ins.
  replace (Editor.ch (Editor.getCursorFrom e)
           + Z.of_nat (length (CommandPlot.prefix command))
           + Z.of_nat (length T) + Z.of_nat (length (suffixOf command)))%Z
    with (Editor.ch (Editor.getCursorFrom e) + Z.of_nat (length ins))%Z
    by (subst ins; rewrite !length_app; lia).
  by apply select_inserted.
Qed.


(** ** The add-highlight command on a caret, toggling enabled *)

Lemma noLineBreak_replaceAllFrom re s :
  noLineBreak s = true -> forall k, noLineBreak (replaceAllFrom re k s) = true.
Proof.
  induction s as [|c r IH]; intros Hs k; [done|].
  cbn [noLineBreak forallb] in Hs. apply andb_true_iff in Hs as [Hc Hr].
  cbn [replaceAllFrom]. destruct k; [|auto].
  destruct (re (c :: r)) as [[|n]|]; cbn [noLineBreak forallb];
    rewrite ?Hc; cbn [andb]; apply IH; done.
Qed.

Lemma noLineBreak_stripMarks s :
  noLineBreak s = true -> noLineBreak (stripMarks s) = true.
Proof.
  intros H. unfold stripMarks, replaceAll.
  by do 3 apply noLineBreak_replaceAllFrom.
Qed.

Lemma noLineBreak_slice s a b :
  noLineBreak s = true -> noLineBreak (Editor.slice s a b) = true.
Proof.
  intros H. unfold Editor.slice.
  by apply EditorLines.noLineBreak_take, EditorLines.noLineBreak_drop.
Qed.

(** What the add-highlight command does with toggling enabled and no prior
    selection: it takes the word around the cursor, bounded by spaces, and
    tests that word, not the mark region around the cursor, for an opening
    tag. *)
Theorem applyCommand_toggle_caret st command e :
  useTogglingBehavior st = true ->
  Editor.wf e ->
  Editor.getSelection e = [] ->
  let cursor := Editor.getCursor e in
  let lineText := Editor.getLine e (Editor.line cursor) in
  let e1 := (selectWordIfNone e).2 in
  let a := Editor.selFrom e1 in
  let b := Editor.selTo e1 in
  exists s t,
    wordAround lineText (Z.to_nat (Editor.ch cursor)) s t
    /\ Editor.getCursorFrom e1 = Editor.mkPos (Editor.line cursor) (Z.of_nat s)
    /\ Editor.getCursorTo e1 = Editor.mkPos (Editor.line cursor) (Z.of_nat t)
    /\ let word := Editor.slice lineText s t in
       if testOpenMark word
       then applyCommand st command e
            = Editor.mk (take a (Editor.doc e) ++ stripMarks word
                         ++ drop b (Editor.doc e))
                a (a + length (stripMarks word))
       else Editor.doc (applyCommand st command e)
            = take a (Editor.doc e)
              ++ (CommandPlot.prefix command ++ word ++ suffixOf command)
              ++ drop b (Editor.doc e).
Proof.
  intros Htog Hwf Hsel cursor lineText e1 a b.
  destruct (selectWordIfNone_caret e Hwf Hsel) as (s & t & Hw & Hf & Ht & Hs & Hg & Hws).
  destruct (selectWordIfNone_result e Hwf) as (Hwf1 & Hdoc & Hf1 & Ht1 & Hs1).
  fold cursor lineText in Hw, Hf, Ht, Hs. fold e1 in Hwf1, Hdoc, Hf1, Ht1, Hs1, Hg.
  exists s, t. split; [done|]. rewrite <- Hf1, <- Ht1. split; [done|]. split; [done|].
  cbv zeta. rewrite <- Hs.
  assert (noLineBreak (ws_selection (selectWordIfNone e).1) = true) as Hnl.
  { rewrite Hs. apply noLineBreak_slice. subst lineText. unfold Editor.getLine.
    destruct (_ <? _)%Z; [done|]. apply EditorLines.noLineBreak_lineAt. }
  unfold applyCommand. subst e1 a b.
  destruct (selectWordIfNone e) as [w e1]. simpl in *.
  rewrite Htog.
  destruct (testOpenMark (ws_selection w)) eqn:Hopen.
  - assert (truthy (ws_selection w) = true) as ->.
    { destruct (ws_selection w); [done|done]. }
    simpl. rewrite Hf1, <- Hdoc.
    by apply select_inserted, noLineBreak_stripMarks.
  - rewrite andb_false_r, <- Hdoc.
    by destruct (truthy (ws_selection w) && _ && _).
Qed.

(** ** The merge of [applyCommand], toggling disabled *)

Lemma mergeTaken_iff command e w :
  mergeTaken command e w = true
  <-> Editor.getRange e (ws_to w)
        (sufEnd command (suffixOf command) (ws_from w) (ws_to w))
      = trimEnd (suffixOf command)
      /\ sliceLast (Editor.getRange e
                      (preStart command (CommandPlot.prefix command) (ws_from w))
                      (ws_from w))
         = sliceLast (trimStart (CommandPlot.prefix command))
      /\ ws_selection w <> [].
Proof.
  unfold mergeTaken. by rewrite !andb_true_iff, !textEqb_eq, truthy_true.
Qed.

(** C3 (amended): with toggling disabled the merge is taken exactly when the
    text after the selection equals the suffix without its trailing white
    space, the last code unit of the text before the selection (white space
    or not) equals the last code unit of the prefix without its leading
    white space, and the selected text is not empty.  When taken, the range
    from the start of the preceding text to the end of the following text is
    replaced by the selected text alone and the cursor is set to column
    [to.ch + (- cursorPos + 8)]; otherwise prefix and suffix are inserted. *)
Theorem applyCommand_merge st command e :
  useTogglingBehavior st = false ->
  let w := (selectWordIfNone e).1 in
  let e1 := (selectWordIfNone e).2 in
  let prefix := CommandPlot.prefix command in
  let suffix := suffixOf command in
  let from := ws_from w in
  let to := ws_to w in
  let pre := Editor.getRange e1 (preStart command prefix from) from in
  let suf := Editor.getRange e1 to (sufEnd command suffix from to) in
  let merge :=
    suf = trimEnd suffix
    /\ sliceLast pre = sliceLast (trimStart prefix)
    /\ ws_selection w <> [] in
  (merge ->
   applyCommand st command e
   = Editor.setCursor
       (Editor.replaceRange e1 (ws_selection w)
          (preStart command prefix from) (sufEnd command suffix from to))
       (Editor.mkPos (Editor.line from - CommandPlot.line command)
          (Editor.ch to + (- cursorPos prefix suffix (ws_selection w) + 8))))
  /\ (~ merge ->
      applyCommand st command e
      = Editor.setCursor
          (Editor.replaceSelection e1 (prefix ++ ws_selection w ++ suffix))
          (Editor.mkPos (Editor.line from + CommandPlot.line command)
             (Editor.ch to + cursorPos prefix suffix (ws_selection w)))).
Proof.
  intros Htog w e1 prefix suffix from to pre suf merge.
  pose proof (mergeTaken_iff command e1 w) as Hiff.
  fold prefix suffix from to pre suf merge in Hiff.
  unfold applyCommand. subst w e1. destruct (selectWordIfNone e) as [w e1].
  cbn [fst snd] in *. rewrite Htog.
  split; intros Hm.
  - rewrite (proj2 Hiff Hm). f_equal. f_equal; unfold from, to, prefix, suffix; lia.
  - destruct (mergeTaken command e1 w) eqn:Hmt; [by destruct Hm; apply Hiff|].
    f_equal. f_equal; unfold from, to, prefix, suffix; lia.
Qed.

(** ** Templates *)

(** C8 (amended): building the template never fails.  In class mode the
    prefix is made from the lower-cased key and the colour mapping is not
    consulted; in inline mode the prefix holds the colour mapped to the key
    when there is one; the suffix is [</mark>] in both. *)
Theorem commandsMap_resolves st key :
  CommandPlot.suffix (commandsMap st key) = lit "</mark>"
  /\ (highlighterMethods st = lit "css-classes" ->
      CommandPlot.prefix (commandsMap st key)
      = lit "<mark class=" ++ [DQ] ++ lit "hltr-" ++ toLowerCase key
        ++ [DQ] ++ lit ">")
  /\ (highlighterMethods st <> lit "css-classes" ->
      forall colour, highlighters st !! key = Some colour ->
      CommandPlot.prefix (commandsMap st key)
      = lit "<mark style=" ++ [DQ] ++ lit "background: " ++ colour
        ++ lit ";" ++ [DQ] ++ lit ">").
Proof.
  split; [done|]. unfold commandsMap. cbn [CommandPlot.prefix].
  split.
  - intros H. apply textEqb_eq in H. by rewrite H.
  - intros H colour Hc.
    destruct (textEqb (highlighterMethods st) (lit "css-classes")) eqn:Ht.
    + by apply textEqb_eq in Ht.
    + by rewrite Hc.
Qed.

(** ** Positions computed by [applyCommand] *)



(** ** The stated properties on sample buffers *)

Lemma sample_wf e : Editor.wfb e = true -> Editor.wf e.
Proof. apply EditorFacts.wfb_wf. Qed.


(** A key with [>] inside is cut at that [>] by the class pattern. *)
Example apply_then_erase_key_with_gt :
  Editor.doc (eraseHighlight togglingOn
                (highlightCommand togglingOn (lit "a>b") bufDefSelected))
  = lit "abc b" ++ [DQ] ++ lit ">def ghi".
Proof. reflexivity. Qed.

(** A selection of two lines is wrapped, but only its first line is selected
    afterwards, so erasing leaves the closing tag behind. *)
Example apply_then_erase_two_lines :
  Editor.doc (eraseHighlight togglingOn
                (highlightCommand togglingOn (lit "a") bufTwoLines))
  = lit "ab" ++ [NL] ++ lit "cd</mark>".
Proof. reflexivity. Qed.

(** With toggling disabled the caret is left one column past the closing
    tag, outside the bracket the locator accepts, and erasing changes
    nothing. *)
Example apply_then_erase_toggling_off :
  Editor.doc (eraseHighlight togglingOff
                (highlightCommand togglingOff (lit "a") bufDefSelected))
  = lit "abc " ++ openA ++ lit "def</mark> ghi".
Proof. reflexivity. Qed.


(** C2: the code misses what the claim asks for.  With toggling enabled
    and the caret inside [hi] of a highlight written by the plugin, the menu
    command finds the mark region around the caret and strips it, while the
    add-highlight command looks at the word around the caret, which starts
    after the space of the opening tag and so holds no opening tag, and
    writes a second opening tag into the first one. *)
Lemma toggle_caret_inside_markup_nests :
  let e := bufMarkedCaret in
  let cursor := Editor.getCursor e in
  let after := highlightCommand togglingOn (lit "b") e in
  Editor.wf e
  /\ useTogglingBehavior togglingOn = true
  /\ Editor.getSelection e = []
  /\ locateMark (Editor.getLine e (Editor.line cursor)) (Editor.ch cursor)
     = Done (Some (0, 30))
  /\ ws_selection (selectWordIfNone e).1
     = lit "class=" ++ [DQ] ++ lit "hltr-a" ++ [DQ] ++ lit ">hi</mark>"
  /\ stripMarks (Editor.doc e) = lit "hi"
  /\ Editor.doc (openHighlightr togglingOn false e).1 = lit "hi"
  /\ Editor.doc after
     = lit "<mark " ++ CommandPlot.prefix (commandsMap togglingOn (lit "b"))
       ++ lit "class=" ++ [DQ] ++ lit "hltr-a" ++ [DQ] ++ lit ">hi</mark></mark>"
  /\ Editor.getSelection after = []
  /\ Editor.doc after <> lit "hi".
Proof.
  cbv zeta. split; [by apply sample_wf|]. by repeat split.
Qed.

Lemma applyCommand_toggle_caret_witness :
  exists s t,
    wordAround (lit "x <mark>hi</mark> y") 4 s t
    /\ Editor.getCursorFrom (selectWordIfNone bufBareTag).2
       = Editor.mkPos 0 (Z.of_nat s)
    /\ Editor.getCursorTo (selectWordIfNone bufBareTag).2
       = Editor.mkPos 0 (Z.of_nat t).
Proof.
  destruct (applyCommand_toggle_caret togglingOn
              (commandsMap togglingOn (lit "a")) bufBareTag
              eq_refl (sample_wf bufBareTag eq_refl) eq_refl)
    as (s & t & Hw & Hf & Ht & _).
  exists s, t. split; [exact Hw|]. split; [exact Hf|exact Ht].
Defined.

(** The stripped word of [bufBareTag] is left selected. *)
Example applyCommand_toggle_bare_tag :
  highlightCommand togglingOn (lit "a") bufBareTag
  = Editor.mk (lit "x <mark>hi y") 2 10.
Proof. reflexivity. Qed.

(** C3, as stated, fails: the text before the selection ends in a space
    after the [>] of an opening tag, so its last code unit that is not white
    space equals the last one of the prefix and the stated condition holds;
    the code compares the space itself and inserts prefix and suffix. *)
Lemma merge_not_taken_after_space :
  let e := bufMarkedSpace in
  let command := commandsMap togglingOff (lit "a") in
  let w := (selectWordIfNone e).1 in
  let prefix := CommandPlot.prefix command in
  let suffix := suffixOf command in
  let pre := Editor.getRange e (preStart command prefix (ws_from w)) (ws_from w) in
  let suf := Editor.getRange e (ws_to w)
               (sufEnd command suffix (ws_from w) (ws_to w)) in
  (suf = trimEnd suffix
   /\ sliceLast (trimEnd pre) = sliceLast (trimStart prefix)
   /\ ws_selection w <> [])
  /\ Editor.doc (applyCommand togglingOff command e)
     = openA ++ lit " " ++ prefix ++ lit "hi" ++ suffix ++ lit "</mark>"
  /\ Editor.doc (applyCommand togglingOff command e)
     <> Editor.doc (Editor.replaceRange e (ws_selection w)
                      (preStart command prefix (ws_from w))
                      (sufEnd command suffix (ws_from w) (ws_to w))).
Proof. cbv zeta. by repeat split. Qed.

Lemma applyCommand_merge_witness :
  applyCommand togglingOff (commandsMap togglingOff (lit "a")) bufMarkedSelected
  = Editor.mk (lit "hi") 2 2.
Proof.
  pose proof (applyCommand_merge togglingOff (commandsMap togglingOff (lit "a"))
                bufMarkedSelected eq_refl) as H.
  cbv zeta in H. destruct H as [H _]. rewrite H; [reflexivity|].
  by repeat split.
Defined.

Lemma eraseHighlight_newTo_witness :
  Editor.getCursorTo (eraseHighlight togglingOn bufThreeLines) = Editor.mkPos 2 3.
Proof.
  pose proof (eraseHighlight_newTo togglingOn bufThreeLines eq_refl) as H.
  cbv zeta in H. destruct H as [H _]; [discriminate|]. rewrite H. reflexivity.
Defined.

Lemma eraseHighlight_no_markup_witness :
  Editor.doc (eraseHighlight togglingOn bufDefSelected) = Editor.doc bufDefSelected.
Proof.
  apply eraseHighlight_no_markup; [by apply sample_wf|reflexivity..].
Defined.

Lemma selectMarkRegionIfInside_region_witness :
  exists res,
    MarkRegion (Editor.doc bufInLine) 24 0 res /\ res = Some (2, 32)
    /\ Editor.getSelection (selectMarkRegionIfInside bufInLine true).2
       = openA ++ lit "hi</mark>".
Proof.
  destruct (selectMarkRegionIfInside_region bufInLine
              (sample_wf bufInLine eq_refl) eq_refl) as (res & Hloc & Hspec & Hres).
  vm_compute in Hloc. injection Hloc as Hloc. subst res.
  cbv zeta in Hres. destruct Hres as (_ & _ & _ & _ & _ & _ & _ & _ & Hs).
  exists (Some (2, 32)). split; [exact Hspec|]. split; [reflexivity|].
  rewrite Hs. reflexivity.
Defined.

(** The span of the specification: from the [<] of [<mark] to the end of
    [</mark>]. *)
Example selectMarkRegionIfInside_in_line :
  let r := (selectMarkRegionIfInside bufInLine true).1 in
  markSelectionMade r = true
  /\ mr_from r = Editor.mkPos 0 2 /\ mr_to r = Editor.mkPos 0 32
  /\ mr_selection r = openA ++ lit "hi</mark>".
Proof. by repeat split. Qed.

Lemma selectWordIfNone_word_witness :
  exists s t,
    wordAround (lit "abc def ghi") 5 s t
    /\ ws_from (selectWordIfNone bufDefCaret).1 = Editor.mkPos 0 (Z.of_nat s)
    /\ ws_to (selectWordIfNone bufDefCaret).1 = Editor.mkPos 0 (Z.of_nat t).
Proof.
  destruct (proj1 selectWordIfNone_word bufDefCaret
              (sample_wf bufDefCaret eq_refl) eq_refl)
    as (s & t & Hw & Hf & Ht & _).
  exists s, t. split; [exact Hw|]. split; [exact Hf|exact Ht].
Defined.

(** C8, as stated, fails: a key without a colour resolves to a template all
    the same, with [undefined] in the place of the colour. *)
Lemma commandsMap_absent_key :
  highlighters inlineNoColours !! lit "pink" = None
  /\ commandsMap inlineNoColours (lit "pink")
     = CommandPlot.mk 34 0
         (lit "<mark style=" ++ [DQ] ++ lit "background: undefined;" ++ [DQ] ++ lit ">")
         (lit "</mark>").
Proof. by split. Qed.

Lemma commandsMap_resolves_witness :
  CommandPlot.prefix (commandsMap inlineStyles (lit "a"))
  = lit "<mark style=" ++ [DQ] ++ lit "background: #ffd400;" ++ [DQ] ++ lit ">".
Proof.
  destruct (commandsMap_resolves inlineStyles (lit "a")) as (_ & _ & H).
  rewrite (H ltac:(discriminate) (lit "#ffd400")); [reflexivity|].
  apply lookup_singleton_eq.
Defined.



Lemma eraseHighlight_frame_witness :
  Editor.doc (eraseHighlight togglingOn bufInLine) = lit "x hi y".
Proof.
  pose proof (eraseHighlight_frame togglingOn bufInLine
                (sample_wf bufInLine eq_refl)) as H.
  cbv zeta in H. destruct H as [_ H]. rewrite H. reflexivity.
Defined.

(** * Further properties of the code *)

(** ** The locators *)

(** X1: called with [makeSelection = false], [selectMarkRegionIfInside]
    leaves the editor as it is, and it reports a mark region exactly when
    the selecting call does. *)
Theorem selectMarkRegionIfInside_probe e :
  (selectMarkRegionIfInside e false).2 = e
  /\ markSelectionMade (selectMarkRegionIfInside e false).1
     = markSelectionMade (selectMarkRegionIfInside e true).1.
Proof.
  unfold selectMarkRegionIfInside.
  destruct (negb (truthy (Editor.getSelection e))); [|done].
  by destruct (locateMark _ _) as [|[[s t]|]].
Qed.

Lemma MarkRegion_Some lineText cursorCh pos o c :
  MarkRegion lineText cursorCh pos (Some (o, c)) ->
  exists r,
    c = r + 7 /\ o <= r /\ c <= length lineText
    /\ startsWith (lit "<mark") (drop o lineText) = true
    /\ startsWith (lit "</mark>") (drop r lineText) = true
    /\ (Z.of_nat o <= cursorCh <= Z.of_nat c)%Z.
Proof.
  remember (Some (o, c)) as res eqn:Hres.
  induction 1 as [| |pos o' r Ho Hc Hin|]; try done; [|auto].
  injection Hres as E1 E2. subst o c. exists r.
  pose proof (firstAt_bound (lit "</mark>") _ _ _ ltac:(discriminate) Hc) as Hcb.
  simpl in Hcb. destruct Ho as (_ & Ho & _). destruct Hc as (Hor & Hc & _).
  repeat apply conj; try done; lia.
Qed.

Lemma startsWith_take needle s k :
  startsWith needle s = true -> length needle <= k ->
  startsWith needle (take k s) = true.
Proof.
  intros H Hk. rewrite (startsWith_inv _ _ H).
  rewrite take_app_ge by done.
  apply startsWith_app.
Qed.

(** A closing tag cannot start inside the five code units of [<mark]. *)
Lemma close_after_open s j :
  startsWith (lit "<mark") s = true ->
  startsWith (lit "</mark>") (drop j s) = true ->
  5 <= j.
Proof.
  intros Ho Hc. rewrite (startsWith_inv _ _ Ho) in Hc.
  destruct j as [|[|[|[|[|j]]]]]; try done; lia.
Qed.

(** X2: a region selected by [selectMarkRegionIfInside] lies on one line,
    begins with [<mark], ends with [</mark>], the two tags do not overlap,
    and the cursor column lies between its ends. *)
Theorem selectMarkRegionIfInside_region_text e :
  Editor.wf e ->
  Editor.getSelection e = [] ->
  let r := (selectMarkRegionIfInside e true).1 in
  let sel := mr_selection r in
  let cursor := Editor.getCursor e in
  markSelectionMade r = true ->
  Editor.getSelection (selectMarkRegionIfInside e true).2 = sel
  /\ startsWith (lit "<mark") sel = true
  /\ drop (length sel - 7) sel = lit "</mark>"
  /\ 12 <= length sel
  /\ noLineBreak sel = true
  /\ Editor.line (mr_from r) = Editor.line cursor
  /\ Editor.line (mr_to r) = Editor.line cursor
  /\ (Editor.ch (mr_from r) <= Editor.ch cursor <= Editor.ch (mr_to r))%Z
  /\ (Editor.ch (mr_to r) - Editor.ch (mr_from r) = Z.of_nat (length sel))%Z.
Proof.
  intros Hwf Hsel r sel cursor. subst sel r.
  unfold selectMarkRegionIfInside. rewrite Hsel. cbn [negb truthy]. fold cursor.
  destruct (locateMark_spec (Editor.getLine e (Editor.line cursor))
              (Editor.ch cursor)) as (res & Hloc & Hspec).
  rewrite Hloc. destruct res as [[o c]|]; [|done].
  cbn [fst snd markSelectionMade mr_selection mr_from mr_to]. intros _.
  apply MarkRegion_Some in Hspec as (r & -> & Hor & Hc & Ho & Hr & Hin).
  pose proof (getCursor_line e) as Hcur. subst cursor.
  destruct (Editor.lineColOf _ _) as [l k].
  destruct Hcur as (Hcur & Hline & Hl & Hk). rewrite Hcur in *.
  cbn [Editor.line Editor.ch] in *. rewrite Hline in *.
  set (lineText := Editor.lineAt (Editor.doc e) l) in *.
  destruct (EditorLines.setSelection_line e l o (r + 7) Hl) as (Hf & Ht & Hs);
    [lia|done|].
  fold lineText in Hs. rewrite Hf, Ht, Hs. cbn [Editor.line Editor.ch].
  assert (5 <= r - o) as Hgap.
  { apply (close_after_open (drop o lineText)); [done|].
    rewrite drop_drop. by replace (o + (r - o)) with r by lia. }
  assert (length (Editor.slice lineText o (r + 7)) = r + 7 - o) as Hlen.
  { unfold Editor.slice. rewrite length_take, length_drop. lia. }
  rewrite Hlen. repeat apply conj; try lia; try done.
  - unfold Editor.slice. apply startsWith_take; [done|].
    change (length (lit "<mark")) with 5. lia.
  - unfold Editor.slice. replace (r + 7 - o - 7) with (r - o) by lia.
    replace (r + 7 - o) with ((r - o) + 7) by lia.
    rewrite <- take_drop_commute, drop_drop.
    replace (o + (r - o)) with r by lia.
    rewrite (startsWith_inv _ _ Hr) at 1. by apply take_app_length'.
  - apply noLineBreak_slice. apply EditorLines.noLineBreak_lineAt.
Qed.

Lemma editor_eta e : Editor.mk (Editor.doc e) (Editor.anchor e) (Editor.head e) = e.
Proof. by destruct e. Qed.

Lemma wordStart_at_space lineText k :
  k = 0 \/ lineText !! (k - 1) = Some SPACE -> wordStart lineText k = k.
Proof.
  destruct k as [|k]; [done|]. intros [H|H]; [done|]. simpl in *.
  rewrite Nat.sub_0_r in H. apply notSpaceAt_false in H. by rewrite H.
Qed.

Lemma wordEnd_at_space lineText k :
  k = length lineText \/ lineText !! k = Some SPACE -> wordEnd lineText k = k.
Proof.
  unfold wordEnd. intros [->|H].
  - by rewrite Nat.sub_diag.
  - destruct (length lineText - k); [done|]. simpl.
    apply notSpaceAt_false in H. by rewrite H, andb_false_r.
Qed.

Lemma selectWordIfNone_at_blank e :
  Editor.wf e ->
  Editor.getSelection e = [] ->
  let cursor := Editor.getCursor e in
  let lineText := Editor.getLine e (Editor.line cursor) in
  let k := Z.to_nat (Editor.ch cursor) in
  (k = 0 \/ lineText !! (k - 1) = Some SPACE) ->
  (k = length lineText \/ lineText !! k = Some SPACE) ->
  selectWordIfNone e = (mkWordSelectionResult [] cursor cursor true, e).
Proof.
  intros Hwf Hsel cursor lineText k Hleft Hright.
  pose proof (EditorLines.empty_selection e Hwf Hsel) as Hcaret.
  unfold selectWordIfNone. rewrite Hsel. simpl.
  fold cursor. fold lineText. fold k.
  rewrite (wordStart_at_space _ _ Hleft), (wordEnd_at_space _ _ Hright).
  assert (Editor.setSelection e
            (Editor.mkPos (Editor.line cursor) (Z.of_nat k))
            (Editor.mkPos (Editor.line cursor) (Z.of_nat k)) = e) as He.
  { subst k. pose proof (EditorFacts.posToOffset_offsetToPos (Editor.doc e)
                           (Editor.head e) (proj2 Hwf)) as Hrt.
    fold (Editor.getCursor e) in Hrt. fold cursor in Hrt.
    assert (Editor.mkPos (Editor.line cursor) (Z.of_nat (Z.to_nat (Editor.ch cursor)))
            = cursor) as ->.
    { subst cursor. unfold Editor.getCursor, Editor.offsetToPos.
      destruct (Editor.lineColOf _ _). simpl. by rewrite Nat2Z.id. }
    unfold Editor.setSelection. rewrite Hrt. rewrite <- Hcaret at 1.
    apply editor_eta. }
  rewrite He. destruct (caret_from_to e Hcaret) as [-> ->].
  by rewrite Hsel.
Qed.

(** X3: a caret that has a space or an end of the line on each side, as on
    an empty line, gets an empty word: the selection text is empty, the
    editor is unchanged, and [wordSelected] is set all the same. *)
Theorem selectWordIfNone_blank e :
  Editor.wf e ->
  Editor.getSelection e = [] ->
  let cursor := Editor.getCursor e in
  let lineText := Editor.getLine e (Editor.line cursor) in
  let k := Z.to_nat (Editor.ch cursor) in
  (k = 0 \/ lineText !! (k - 1) = Some SPACE) ->
  (k = length lineText \/ lineText !! k = Some SPACE) ->
  selectWordIfNone e = (mkWordSelectionResult [] cursor cursor true, e).
Proof. apply selectWordIfNone_at_blank. Qed.

(** X4: asking again for the word just selected returns the same span and
    text and leaves the editor alone, but no longer reports it as selected
    by the helper. *)
Theorem selectWordIfNone_again e :
  Editor.wf e ->
  let w := (selectWordIfNone e).1 in
  let e1 := (selectWordIfNone e).2 in
  ws_selection w <> [] ->
  selectWordIfNone e1
  = (mkWordSelectionResult (ws_selection w) (ws_from w) (ws_to w) false, e1).
Proof.
  intros Hwf w e1 Hne.
  destruct (selectWordIfNone_result e Hwf) as (_ & _ & Hf & Ht & Hs).
  fold w e1 in Hf, Ht, Hs. rewrite Hs in Hne.
  rewrite (selectWordIfNone_selected e1 Hne). by rewrite Hf, Ht, Hs.
Qed.

(** ** Erase *)

Lemma replaceAllFrom_sublist re s : forall k, replaceAllFrom re k s `sublist_of` s.
Proof.
  induction s as [|c r IH]; intros k; [done|].
  cbn [replaceAllFrom]. destruct k; [|by apply sublist_cons].
  destruct (re (c :: r)) as [[|n]|];
    [by apply sublist_skip|by apply sublist_cons|by apply sublist_skip].
Qed.

Lemma stripMarks_sublist s : stripMarks s `sublist_of` s.
Proof.
  unfold stripMarks, replaceAll.
  etrans; [apply replaceAllFrom_sublist|].
  etrans; apply replaceAllFrom_sublist.
Qed.

(** X5: [eraseHighlight] only removes code units: the text of the buffer
    afterwards is the old text with some code units left out, in the same
    order, and so is never longer. *)
Theorem eraseHighlight_only_removes st e :
  Editor.wf e ->
  Editor.doc (eraseHighlight st e) `sublist_of` Editor.doc e
  /\ length (Editor.doc (eraseHighlight st e)) <= length (Editor.doc e).
Proof.
  intros Hwf.
  assert (Editor.doc (eraseHighlight st e) `sublist_of` Editor.doc e) as H.
  { rewrite (eraseHighlight_doc st e Hwf).
    set (e1 := (selectMarkRegionIfInside e true).2).
    rewrite <- (EditorFacts.slice_full (Editor.doc e) (Editor.selFrom e1)
                  (Editor.selTo e1) (EditorFacts.selFrom_le_selTo e1)) at 4.
    apply sublist_app; [done|]. apply sublist_app; [|done].
    apply stripMarks_sublist. }
  split; [done|]. by apply sublist_length.
Qed.

(** Line and column of the end of a text. *)
Lemma lineColOf_end s :
  Editor.lineColOf s (length s)
  = (breakCount s,
     if Nat.eqb (breakCount s) 0 then length s else length (finalSegment s)).
Proof.
  induction s as [|a s IH]; [done|].
  cbn [Editor.lineColOf length breakCount finalSegment]. rewrite IH.
  destruct (eqc a NL); destruct (breakCount s) eqn:Hb; simpl;
    rewrite ?finalSegment_no_break by done; done.
Qed.

Lemma lineColOf_end_app x y :
  Editor.lineColOf (x ++ y) (length (x ++ y))
  = (let '(l, c) := Editor.lineColOf x (length x) in
     (l + breakCount y,
      if Nat.eqb (breakCount y) 0 then c + length y else length (finalSegment y))).
Proof.
  induction x as [|a x IH]; [apply lineColOf_end|].
  cbn [app length Editor.lineColOf]. rewrite IH.
  destruct (Editor.lineColOf x (length x)) as [l c].
  destruct (eqc a NL); [done|].
  destruct l, (breakCount y); simpl; try done.
Qed.

(** The position [eraseHighlight] computes for the end of the stripped text
    is the position of that end in the new document. *)
Lemma eraseNewTo_offset d a ins post :
  a <= length d ->
  Editor.posToOffset (take a d ++ ins ++ post)
    (eraseNewTo (Editor.offsetToPos d a) ins) = a + length ins.
Proof.
  intros Ha. rewrite eraseNewTo_eq.
  assert (length (take a d) = a) as Hpre by (rewrite length_take; lia).
  assert (eraseNewTo_pos :
    (if Nat.eqb (breakCount ins) 0
     then Editor.mkPos (Editor.line (Editor.offsetToPos d a))
            (Editor.ch (Editor.offsetToPos d a) + Z.of_nat (length ins))
     else Editor.mkPos (Editor.line (Editor.offsetToPos d a) + Z.of_nat (breakCount ins))
            (Z.of_nat (length (finalSegment ins))))
    = Editor.offsetToPos (take a d ++ ins ++ post) (a + length ins)).
  { unfold Editor.offsetToPos.
    rewrite (EditorFacts.lineColOf_take d a Ha).
    rewrite (EditorFacts.lineColOf_take (take a d ++ ins ++ post) (a + length ins))
      by (rewrite !length_app; lia).
    replace (take (a + length ins) (take a d ++ ins ++ post)) with (take a d ++ ins).
    2:{ rewrite app_assoc. symmetry. apply take_app_length'.
        rewrite length_app. lia. }
    rewrite lineColOf_end_app.
    destruct (Editor.lineColOf (take a d) (length (take a d))) as [l c].
    destruct (breakCount ins); simpl; f_equal; lia. }
  rewrite eraseNewTo_pos.
  apply EditorFacts.posToOffset_offsetToPos. rewrite !length_app. lia.
Qed.

Lemma from_offset d a rest :
  a <= length d ->
  Editor.posToOffset (take a d ++ rest) (Editor.offsetToPos d a) = a.
Proof.
  intros Ha.
  pose proof (EditorFacts.posToOffset_after_edit d a [] rest 0 Ha eq_refl
                (Nat.le_refl _)) as H.
  cbv zeta in H. rewrite pos_eta in H. simpl in H. by rewrite Nat.add_0_r in H.
Qed.

(** X6: with toggling enabled and a non-empty stripped text, the editor ends
    with its head right after the stripped text, whatever the number of
    lines of that text: after a selection of the user the stripped text is
    the new selection, after a region found by the locator the caret stands
    at its end. *)
Theorem eraseHighlight_selection_after st e :
  Editor.wf e ->
  useTogglingBehavior st = true ->
  let r := (selectMarkRegionIfInside e true).1 in
  let e1 := (selectMarkRegionIfInside e true).2 in
  let a := Editor.selFrom e1 in
  let b := Editor.selTo e1 in
  let newStr := stripMarks (Editor.slice (Editor.doc e) a b) in
  newStr <> [] ->
  eraseHighlight st e
  = Editor.mk (take a (Editor.doc e) ++ newStr ++ drop b (Editor.doc e))
      (if markSelectionMade r then a + length newStr else a)
      (a + length newStr).
Proof.
  intros Hwf Htog r e1 a b newStr Hne.
  pose proof (selectMark_offsets e true Hwf) as Hoff.
  pose proof (selectMark_doc e true) as Hdoc.
  pose proof (selectMark_wf e true Hwf) as Hwf1.
  pose proof (selectMark_from_to e true) as Hft.
  unfold eraseHighlight. subst newStr a b r e1.
  destruct (selectMarkRegionIfInside e true) as [r e1].
  cbn [fst snd] in *. destruct Hoff as [Ha Hb]. destruct Hft as [Hf Ht].
  pose proof (EditorFacts.selFrom_le_selTo e1) as Hab.
  pose proof (EditorFacts.selTo_le e1 Hwf1) as Hble. rewrite Hdoc in Hble.
  unfold Editor.getRange. rewrite Hdoc, Ha, Hb.
  set (newStr := stripMarks _) in *.
  rewrite Htog. replace (0 <? length newStr) with true
    by (symmetry; apply Nat.ltb_lt; destruct newStr; [done|simpl; lia]).
  cbn [andb].
  unfold Editor.setCursor, Editor.setSelection, Editor.replaceRange.
  cbn [Editor.doc]. rewrite Hdoc, Ha, Hb, Nat.max_r by done.
  rewrite Hf. unfold Editor.getCursorFrom. rewrite Hdoc.
  rewrite eraseNewTo_offset, from_offset by lia.
  by destruct (markSelectionMade r).
Qed.

(** X7: when the locator selected the region itself and either toggling is
    disabled or nothing is left of the region, the selection made by the
    locator is dropped again: the caret stands where the region began. *)
Theorem eraseHighlight_collapses st e :
  Editor.wf e ->
  let r := (selectMarkRegionIfInside e true).1 in
  let e1 := (selectMarkRegionIfInside e true).2 in
  let a := Editor.selFrom e1 in
  let b := Editor.selTo e1 in
  let newStr := stripMarks (Editor.slice (Editor.doc e) a b) in
  markSelectionMade r = true ->
  useTogglingBehavior st = false \/ newStr = [] ->
  eraseHighlight st e
  = Editor.mk (take a (Editor.doc e) ++ newStr ++ drop b (Editor.doc e)) a a.
Proof.
  intros Hwf r e1 a b newStr Hmade Hcase.
  pose proof (selectMark_offsets e true Hwf) as Hoff.
  pose proof (selectMark_doc e true) as Hdoc.
  pose proof (selectMark_wf e true Hwf) as Hwf1.
  pose proof (selectMark_from_to e true) as Hft.
  unfold eraseHighlight. subst newStr a b r e1.
  destruct (selectMarkRegionIfInside e true) as [r e1].
  cbn [fst snd] in *. destruct Hoff as [Ha Hb]. destruct Hft as [Hf Ht].
  pose proof (EditorFacts.selFrom_le_selTo e1) as Hab.
  pose proof (EditorFacts.selTo_le e1 Hwf1) as Hble. rewrite Hdoc in Hble.
  unfold Editor.getRange. rewrite Hdoc, Ha, Hb.
  set (newStr := stripMarks _) in *.
  assert (useTogglingBehavior st && (0 <? length newStr) = false) as ->.
  { destruct Hcase as [-> | ->]; [done|by rewrite andb_false_r]. }
  rewrite Hmade.
  unfold Editor.setCursor, Editor.setSelection, Editor.replaceRange.
  cbn [Editor.doc]. rewrite Hdoc, Ha, Hb, Nat.max_r by done.
  rewrite Hf. unfold Editor.getCursorFrom. rewrite Hdoc.
  by rewrite from_offset by lia.
Qed.

Lemma mapOffset_empty a o : Editor.mapOffset a a 0 o = o.
Proof.
  unfold Editor.mapOffset.
  destruct (Nat.leb_spec o a); [done|].
  destruct (Nat.leb_spec a o); lia.
Qed.

(** X8: with nothing selected and the caret outside every mark region,
    [eraseHighlight] does nothing at all. *)
Theorem eraseHighlight_outside_noop st e :
  Editor.wf e ->
  Editor.getSelection e = [] ->
  markSelectionMade (selectMarkRegionIfInside e true).1 = false ->
  eraseHighlight st e = e.
Proof.
  intros Hwf Hsel. pose proof (EditorLines.empty_selection e Hwf Hsel) as Hcaret.
  unfold eraseHighlight, selectMarkRegionIfInside. rewrite Hsel. cbn [negb truthy].
  destruct (locateMark _ _) as [|[[s t]|]]; cbn [fst snd markSelectionMade mr_from mr_to];
    try done; intros _.
  all: destruct (caret_from_to e Hcaret) as [-> ->].
  all: unfold Editor.getRange, Editor.slice; rewrite Nat.sub_diag, take_0.
  all: change (stripMarks []) with (@nil ascii); rewrite andb_false_r.
  all: unfold Editor.replaceRange; rewrite Nat.max_id; cbn [length app].
  all: rewrite take_drop, !mapOffset_empty; apply editor_eta.
Qed.

(** ** Apply *)

Lemma skipNotGt_finds x y : startsWith [GT] (skipNotGt (x ++ GT :: y)) = true.
Proof.
  induction x as [|c x IH]; cbn [app skipNotGt].
  - by rewrite eqc_refl.
  - destruct (eqc c GT) eqn:Hc; [|done].
    apply eqc_eq in Hc as ->. cbn [startsWith]. by rewrite eqc_refl.
Qed.

Lemma openMarkAt_tag x y : openMarkAt (lit "<mark " ++ x ++ GT :: y) = true.
Proof.
  unfold openMarkAt. cbn [lit list_ascii_of_string app drop].
  replace (startsWithCI _ _) with true by done.
  pose proof (skipNotGt_finds (SPACE :: x) y) as H. cbn [app] in H.
  unfold SPACE in H. by rewrite H.
Qed.

Lemma testOpenMark_app u s : openMarkAt s = true -> testOpenMark (u ++ s) = true.
Proof.
  intros H. induction u as [|c u IH]; cbn [app].
  - destruct s; cbn [testOpenMark]; by rewrite H.
  - cbn [testOpenMark]. by rewrite IH, orb_true_r.
Qed.

Lemma commandsMap_prefix_tag st key :
  exists x, CommandPlot.prefix (commandsMap st key) = lit "<mark " ++ x ++ [GT].
Proof.
  unfold commandsMap. cbn [CommandPlot.prefix].
  destruct (textEqb (highlighterMethods st) (lit "css-classes")).
  - exists (lit "class=" ++ [DQ] ++ lit "hltr-" ++ toLowerCase key ++ [DQ]).
    cbn [lit list_ascii_of_string app]. by rewrite <- app_assoc.
  - exists (lit "style=" ++ [DQ] ++ lit "background: "
            ++ interpolate (highlighters st !! key) ++ lit ";" ++ [DQ]).
    cbn [lit list_ascii_of_string app]. by rewrite <- app_assoc.
Qed.

Lemma testOpenMark_template st key u v :
  testOpenMark (u ++ CommandPlot.prefix (commandsMap st key) ++ v) = true.
Proof.
  destruct (commandsMap_prefix_tag st key) as [x ->].
  apply testOpenMark_app. rewrite <- !app_assoc. apply openMarkAt_tag.
Qed.

(** X9: every opening tag the plugin writes, for any key and in either
    style mode, is found by the test that decides between adding and
    removing a highlight, wherever it stands in the selected text. *)
Theorem testOpenMark_own_tag st key u v :
  testOpenMark (u ++ CommandPlot.prefix (commandsMap st key) ++ v) = true.
Proof. apply testOpenMark_template. Qed.


(** X11: in toggling mode the highlight commands toggle: after a selected
    text has been highlighted, running the command of any key again removes
    the markup and leaves the original text selected, in the original
    document. *)
Theorem highlight_twice_restores st key key' e :
  useTogglingBehavior st = true ->
  Editor.wf e ->
  let T := Editor.getSelection e in
  T <> [] ->
  noLineBreak T = true ->
  testOpenMark T = false ->
  occursIn (lit "</mark>") T = false ->
  occursIn (lit "<mark style") T = false ->
  occursIn (lit "<mark class") T = false ->
  plainAttr key = true ->
  (forall c, highlighters st !! key = Some c -> plainAttr c = true) ->
  highlightCommand st key' (highlightCommand st key e)
  = Editor.mk (Editor.doc e) (Editor.selFrom e) (Editor.selTo e).
Proof.
  intros Htog Hwf T HT Hline Hopen Hclose Hstyle Hclass Hkey Hcol.
  unfold highlightCommand at 2.
  set (P := CommandPlot.prefix (commandsMap st key)).
  set (ins := P ++ T ++ lit "</mark>").
  assert (noLineBreak ins = true) as Hins.
  { subst ins P. rewrite !EditorLines.noLineBreak_app, Hline.
    by rewrite noLineBreak_template. }
  rewrite (applyCommand_wraps_selection st _ e Htog Hwf HT Hopen);
    rewrite commandsMap_suffix; fold P; fold T; fold ins; [|done].
  pose proof (EditorFacts.selFrom_le_selTo e) as Hab.
  pose proof (EditorFacts.selTo_le e Hwf) as Hb.
  set (a := Editor.selFrom e) in *. set (b := Editor.selTo e) in *.
  set (d := Editor.doc e) in *.
  assert (length (take a d) = a) as Hpre by (rewrite length_take; lia).
  set (e3 := Editor.mk (take a d ++ ins ++ drop b d) a (a + length ins)).
  assert (Editor.selFrom e3 = a /\ Editor.selTo e3 = a + length ins) as [Ha3 Hb3].
  { unfold Editor.selFrom, Editor.selTo. simpl. lia. }
  assert (Editor.getSelection e3 = ins) as Hsel3.
  { unfold Editor.getSelection. rewrite Ha3, Hb3. cbn [e3 Editor.doc].
    rewrite <- Hpre at 2 3. apply EditorFacts.slice_inserted. }
  assert (ins <> []) as Hne.
  { subst ins. destruct P; [|done]. simpl. by destruct T. }
  assert (Editor.wf e3) as Hwf3.
  { split; simpl; rewrite !length_app, Hpre; lia. }
  unfold highlightCommand, applyCommand.
  rewrite (selectWordIfNone_selected e3) by (by rewrite Hsel3).
  cbn [ws_selection ws_from ws_to wordSelected]. rewrite Hsel3, Htog.
  assert (testOpenMark ins = true) as ->.
  { subst ins P. apply (testOpenMark_template st key []). }
  rewrite (proj2 (truthy_true ins) Hne). cbn [andb].
  assert (stripMarks ins = T) as ->.
  { subst ins P. by apply stripMarks_template. }
  pose proof (select_inserted e3 T Hwf3 Hline) as Hsi. cbv zeta in Hsi.
  rewrite Hsi, Ha3, Hb3. cbn [e3 Editor.doc].
  assert (drop (a + length ins) (take a d ++ ins ++ drop b d) = drop b d) as ->.
  { rewrite app_assoc. apply drop_app_length'. rewrite length_app, Hpre. done. }
  rewrite take_app_length' by done.
  assert (length T = b - a) as HlenT.
  { subst T. unfold Editor.getSelection, Editor.slice. fold a b d.
    rewrite length_take, length_drop. lia. }
  f_equal; [|lia].
  subst T. unfold Editor.getSelection. fold a b d.
  by apply EditorFacts.slice_full.
Qed.

(** X12: in toggling mode, with nothing selected and a word around the
    caret that holds no opening tag, the word is wrapped in prefix and
    suffix and the caret is put right after the inserted prefix, in front
    of the word. *)
Theorem applyCommand_toggle_wraps_word st command e :
  useTogglingBehavior st = true ->
  Editor.wf e ->
  Editor.getSelection e = [] ->
  let w := (selectWordIfNone e).1 in
  let e1 := (selectWordIfNone e).2 in
  let a := Editor.selFrom e1 in
  let b := Editor.selTo e1 in
  let prefix := CommandPlot.prefix command in
  testOpenMark (ws_selection w) = false ->
  noLineBreak prefix = true ->
  applyCommand st command e
  = Editor.mk (take a (Editor.doc e)
               ++ (prefix ++ ws_selection w ++ suffixOf command)
               ++ drop b (Editor.doc e))
      (a + length prefix) (a + length prefix).
Proof.
  intros Htog Hwf Hsel w e1 a b prefix Hopen Hnl.
  destruct (selectWordIfNone_caret e Hwf Hsel) as (_ & _ & _ & _ & _ & _ & _ & Hws).
  destruct (selectWordIfNone_result e Hwf) as (Hwf1 & Hdoc & Hf & _ & _).
  fold w in Hws, Hf. fold e1 in Hwf1, Hdoc, Hf.
  unfold applyCommand. subst prefix a b w e1.
  destruct (selectWordIfNone e) as [w e1]. cbn [fst snd] in *.
  rewrite Htog, Hopen, Hws, !andb_false_r, Hf.
  unfold Editor.setCursor, Editor.setSelection, Editor.replaceSelection,
    Editor.getCursorFrom.
  cbn [Editor.doc]. rewrite Hdoc.
  pose proof (EditorFacts.selFrom_le_selTo e1) as Hab.
  pose proof (EditorFacts.selTo_le e1 Hwf1) as Hb. rewrite Hdoc in Hb.
  rewrite <- (app_assoc (CommandPlot.prefix command)).
  rewrite EditorFacts.posToOffset_after_edit; [done|lia|done|lia].
Qed.

(** X13: on a caret that has a space or an end of the line on each side
    there is no word to wrap: with toggling enabled or disabled, prefix and
    suffix are inserted at the caret and the caret is put between them. *)
Theorem applyCommand_blank st command e :
  Editor.wf e ->
  Editor.getSelection e = [] ->
  let cursor := Editor.getCursor e in
  let lineText := Editor.getLine e (Editor.line cursor) in
  let k := Z.to_nat (Editor.ch cursor) in
  let prefix := CommandPlot.prefix command in
  (k = 0 \/ lineText !! (k - 1) = Some SPACE) ->
  (k = length lineText \/ lineText !! k = Some SPACE) ->
  CommandPlot.line command = 0%Z ->
  noLineBreak prefix = true ->
  applyCommand st command e
  = Editor.mk (take (Editor.head e) (Editor.doc e)
               ++ (prefix ++ suffixOf command)
               ++ drop (Editor.head e) (Editor.doc e))
      (Editor.head e + length prefix) (Editor.head e + length prefix).
Proof.
  intros Hwf Hsel cursor lineText k prefix Hleft Hright Hline Hnl.
  pose proof (EditorLines.empty_selection e Hwf Hsel) as Hcaret.
  assert (Editor.selFrom e = Editor.head e /\ Editor.selTo e = Editor.head e)
    as [Hsf Hst].
  { unfold Editor.selFrom, Editor.selTo. rewrite Hcaret. lia. }
  assert (forall p,
            p = Editor.mkPos (Editor.line cursor)
                  (Editor.ch cursor + Z.of_nat (length prefix)) ->
            Editor.setCursor
              (Editor.replaceSelection e (prefix ++ [] ++ suffixOf command)) p
            = Editor.mk (take (Editor.head e) (Editor.doc e)
                         ++ (prefix ++ suffixOf command)
                         ++ drop (Editor.head e) (Editor.doc e))
                (Editor.head e + length prefix) (Editor.head e + length prefix))
    as Hgoal.
  { intros p ->.
    unfold Editor.setCursor, Editor.setSelection, Editor.replaceSelection.
    cbn [Editor.doc app]. rewrite Hsf, Hst.
    rewrite <- (app_assoc prefix). subst cursor. unfold Editor.getCursor.
    rewrite EditorFacts.posToOffset_after_edit; [done|apply Hwf|done|lia]. }
  unfold applyCommand.
  rewrite (selectWordIfNone_at_blank e Hwf Hsel Hleft Hright).
  cbn [ws_selection ws_from ws_to wordSelected]. fold cursor. fold prefix.
  destruct (useTogglingBehavior st).
  - cbn [truthy andb]. by apply Hgoal.
  - unfold mergeTaken. cbn [ws_selection truthy]. rewrite !andb_false_r.
    apply Hgoal. unfold cursorPos. cbn [length Nat.ltb Nat.leb].
    rewrite Hline. f_equal; lia.
Qed.

(** X14: in toggling mode, a selected text of one line that holds an
    opening mark tag is replaced by its stripped text, nothing is inserted,
    and the stripped text is the selection afterwards. *)
Theorem applyCommand_strips_selection st command e :
  useTogglingBehavior st = true ->
  Editor.wf e ->
  let T := Editor.getSelection e in
  testOpenMark T = true ->
  noLineBreak T = true ->
  applyCommand st command e
  = Editor.mk (take (Editor.selFrom e) (Editor.doc e) ++ stripMarks T
               ++ drop (Editor.selTo e) (Editor.doc e))
      (Editor.selFrom e) (Editor.selFrom e + length (stripMarks T)).
Proof.
  intros Htog Hwf T Hopen Hline.
  assert (T <> []) as HT by (intros HT; by rewrite HT in Hopen).
  unfold applyCommand. rewrite (selectWordIfNone_selected e HT).
  cbn [ws_selection ws_from ws_to wordSelected]. fold T.
  rewrite Htog, Hopen, (proj2 (truthy_true T) HT). cbn [andb].
  by apply select_inserted, noLineBreak_stripMarks.
Qed.

(** ** The merge as the way back, toggling disabled *)

Lemma lineColOf_prefix_app pre mid rest :
  noLineBreak mid = true ->
  Editor.lineColOf (pre ++ mid ++ rest) (length pre + length mid)
  = (let '(l, c) := Editor.lineColOf pre (length pre) in (l, c + length mid)).
Proof.
  intros Hmid.
  pose proof (EditorFacts.lineColOf_app (pre ++ mid) rest) as H.
  rewrite <- app_assoc, length_app in H. rewrite H.
  pose proof (lineColOf_end_app pre mid) as H2. rewrite length_app in H2.
  rewrite H2. destruct (Editor.lineColOf pre (length pre)) as [l c].
  apply breakCount_noLineBreak in Hmid. rewrite Hmid. simpl.
  by rewrite Nat.add_0_r.
Qed.

Lemma slice_middle pre mid post :
  Editor.slice (pre ++ mid ++ post) (length pre) (length pre + length mid) = mid.
Proof. apply EditorFacts.slice_inserted. Qed.

Lemma template_shape st key :
  let P := CommandPlot.prefix (commandsMap st key) in
  trimStart P = P /\ sliceLast P = [GT].
Proof.
  intros P.
  destruct (commandsMap_prefix_tag st key) as [x Hx]. subst P. rewrite Hx.
  split; [done|]. unfold sliceLast.
  rewrite app_assoc, length_app. cbn [length].
  replace (length (lit "<mark " ++ x) + 1 - 1) with (length (lit "<mark " ++ x)) by lia.
  apply drop_app_length.
Qed.

(** X15: with toggling disabled, for a key whose opening tag holds no line
    break, running the command of that key on a selected non-empty one-line
    text that stands exactly between this opening tag and [</mark>] takes
    the markup away again: the tags are removed, the text stays, and the
    caret is put right after it. *)
Theorem applyCommand_unwraps st key pre T post :
  useTogglingBehavior st = false ->
  noLineBreak (CommandPlot.prefix (commandsMap st key)) = true ->
  T <> [] ->
  noLineBreak T = true ->
  let P := CommandPlot.prefix (commandsMap st key) in
  let e := Editor.mk (pre ++ P ++ T ++ lit "</mark>" ++ post)
             (length pre + length P) (length pre + length P + length T) in
  highlightCommand st key e
  = Editor.mk (pre ++ T ++ post) (length pre + length T) (length pre + length T).
Proof.
  intros Htog HP HT HTline P e.
  destruct (template_shape st key) as (Htrim & Hlast). fold P in HP, Htrim, Hlast.
  set (S := lit "</mark>") in *.
  set (d := pre ++ P ++ T ++ S ++ post).
  assert (Editor.selFrom e = length pre + length P
          /\ Editor.selTo e = length pre + length P + length T) as [Hsf Hst].
  { unfold Editor.selFrom, Editor.selTo. cbn [e Editor.anchor Editor.head]. lia. }
  assert (Editor.getSelection e = T) as Hsel.
  { unfold Editor.getSelection. rewrite Hsf, Hst. cbn [e Editor.doc].
    pose proof (slice_middle (pre ++ P) T (S ++ post)) as H.
    rewrite length_app, <- !app_assoc in H. exact H. }
  destruct (Editor.lineColOf pre (length pre)) as [l0 c0] eqn:Hpos.
  assert (Editor.getCursorFrom e
          = Editor.mkPos (Z.of_nat l0) (Z.of_nat (c0 + length P))) as Hfrom.
  { unfold Editor.getCursorFrom, Editor.offsetToPos. rewrite Hsf. cbn [e Editor.doc].
    by rewrite lineColOf_prefix_app, Hpos. }
  assert (Editor.getCursorTo e
          = Editor.mkPos (Z.of_nat l0) (Z.of_nat (c0 + length P + length T))) as Hto.
  { unfold Editor.getCursorTo, Editor.offsetToPos. rewrite Hst. cbn [e Editor.doc].
    pose proof (lineColOf_prefix_app pre (P ++ T) (S ++ post)) as H.
    rewrite <- !app_assoc, length_app, Hpos, !Nat.add_assoc in H.
    rewrite H; [done|]. by rewrite EditorLines.noLineBreak_app, HP, HTline. }
  assert (Hoff : forall mid rest k,
             noLineBreak mid = true -> k <= length mid ->
             Editor.posToOffset (pre ++ mid ++ rest)
               (Editor.mkPos (Z.of_nat l0) (Z.of_nat (c0 + k))) = length pre + k).
  { intros mid rest k Hmid Hk. rewrite EditorFacts.posToOffset_mkPos.
    pose proof (EditorFacts.offsetOf_inside pre mid rest k Hmid Hk) as H.
    by rewrite Hpos in H. }
  set (command := commandsMap st key).
  assert (preStart command P (Editor.getCursorFrom e)
          = Editor.mkPos (Z.of_nat l0) (Z.of_nat (c0 + 0))) as Hps.
  { rewrite Hfrom. unfold preStart. cbn [Editor.line Editor.ch command commandsMap CommandPlot.line].
    f_equal; lia. }
  assert (sufEnd command S (Editor.getCursorFrom e) (Editor.getCursorTo e)
          = Editor.mkPos (Z.of_nat l0)
              (Z.of_nat (c0 + length (P ++ T ++ S)))) as Hse.
  { rewrite Hfrom, Hto. unfold sufEnd.
    cbn [Editor.line Editor.ch command commandsMap CommandPlot.line].
    rewrite !length_app. f_equal; lia. }
  assert (noLineBreak (P ++ T ++ S) = true) as Hmid.
  { by rewrite !EditorLines.noLineBreak_app, HP, HTline. }
  assert (d = pre ++ (P ++ T ++ S) ++ post) as Hd by (subst d; by rewrite <- !app_assoc).
  assert (Hoffd : forall k, k <= length (P ++ T ++ S) ->
             Editor.posToOffset d (Editor.mkPos (Z.of_nat l0) (Z.of_nat (c0 + k)))
             = length pre + k).
  { intros k Hk. rewrite Hd. by apply Hoff. }
  assert (length (P ++ T ++ S) = length P + length T + 7) as Hlen.
  { rewrite !length_app. cbn [S lit list_ascii_of_string length]. lia. }
  assert (Editor.getRange e (preStart command P (Editor.getCursorFrom e))
            (Editor.getCursorFrom e) = P) as Hpre.
  { unfold Editor.getRange. rewrite Hps, Hfrom. cbn [e Editor.doc]. fold d.
    rewrite !Hoffd by lia. rewrite Nat.add_0_r. apply slice_middle. }
  assert (Editor.getRange e (Editor.getCursorTo e)
            (sufEnd command S (Editor.getCursorFrom e) (Editor.getCursorTo e)) = S)
    as Hsuf.
  { unfold Editor.getRange. rewrite Hse, Hto. cbn [e Editor.doc]. fold d.
    rewrite <- Nat.add_assoc, !Hoffd by lia.
    pose proof (slice_middle (pre ++ P ++ T) S post) as H.
    rewrite !length_app, <- !app_assoc in H. fold d in H.
    rewrite Hlen. change (length S) with 7 in H.
    by replace (length pre + (length P + length T + 7))
      with (length pre + (length P + length T) + 7) by lia. }
  unfold highlightCommand, applyCommand. fold command.
  rewrite (selectWordIfNone_selected e) by (by rewrite Hsel).
  cbn [ws_selection ws_from ws_to wordSelected]. rewrite Htog.
  change (suffixOf command) with S. change (CommandPlot.prefix command) with P.
  assert (mergeTaken command e
            (mkWordSelectionResult (Editor.getSelection e) (Editor.getCursorFrom e)
               (Editor.getCursorTo e) false) = true) as ->.
  { apply mergeTaken_iff. cbn [ws_selection ws_from ws_to].
    change (suffixOf command) with S. change (CommandPlot.prefix command) with P.
    rewrite Hpre, Hsuf, Htrim, Hsel. done. }
  rewrite Hse, Hps, Hfrom, Hto, Hsel. cbn [Editor.line Editor.ch].
  unfold Editor.setCursor, Editor.setSelection, Editor.replaceRange.
  cbn [Editor.doc e]. fold d.
  rewrite !Hoffd by lia. rewrite Nat.add_0_r, Nat.max_r by lia.
  assert (take (length pre) d = pre) as -> by (subst d; apply take_app_length).
  assert (drop (length pre + length (P ++ T ++ S)) d = post) as ->.
  { rewrite Hd, (app_assoc pre (P ++ T ++ S) post).
    apply drop_app_length'. rewrite !length_app. lia. }
  assert (Editor.mkPos
            (Z.of_nat l0 + CommandPlot.line command * -1)
            (Z.of_nat (c0 + length P + length T) + (cursorPos P S T * -1 + 8))
          = Editor.mkPos (Z.of_nat l0) (Z.of_nat (c0 + length T))) as ->.
  { unfold cursorPos.
    replace (0 <? length T) with true
      by (symmetry; apply Nat.ltb_lt; destruct T; [done|simpl; lia]).
    cbn [command commandsMap CommandPlot.line]. change (length S) with 7.
    f_equal; lia. }
  by rewrite (Hoff T post (length T) HTline (Nat.le_refl _)).
Qed.

(** ** The menu command *)

(** X16: the menu command removes a highlight only when toggling is enabled
    and the caret, with nothing selected, stands inside a mark region; it
    then does what the erase command does and opens no menu.  With toggling
    disabled, or with any text selected, it leaves the editor as it is and
    opens the menu unless one is present. *)
Theorem openHighlightr_buffer st menuPresent e :
  (useTogglingBehavior st = false \/ Editor.getSelection e <> [] ->
   openHighlightr st menuPresent e = (e, negb menuPresent))
  /\ (useTogglingBehavior st = true ->
      markSelectionMade (selectMarkRegionIfInside e true).1 = true ->
      openHighlightr st menuPresent e = (eraseHighlight st e, false)).
Proof.
  unfold openHighlightr, selectMarkRegionIfInside. split.
  - intros [Htog|Hsel].
    + rewrite Htog.
      destruct (negb (truthy (Editor.getSelection e))); [|done].
      by destruct (locateMark _ _) as [|[[s t]|]].
    + apply truthy_true in Hsel. rewrite Hsel. cbn [negb].
      by rewrite andb_false_r.
  - intros Htog. rewrite Htog.
    destruct (negb (truthy (Editor.getSelection e))); [|done].
    by destruct (locateMark _ _) as [|[[s t]|]].
Qed.

(** ** The style classes *)

Lemma textEqb_false a b : textEqb a b = false <-> a <> b.
Proof.
  destruct (textEqb a b) eqn:H.
  - apply textEqb_eq in H. split; [done|congruence].
  - split; [|done]. intros _ Hab. apply textEqb_eq in Hab. congruence.
Qed.

Lemma classToggle_elem token force classList c :
  c ∈ classToggle token force classList
  <-> (c = token /\ force = true) \/ (c <> token /\ c ∈ classList).
Proof.
  unfold classToggle. destruct force.
  - rewrite elem_of_union, elem_of_singleton.
    destruct (decide (c = token)); intuition congruence.
  - rewrite elem_of_difference, elem_of_singleton. intuition congruence.
Qed.

Lemma style_class_inj (s s' : text) :
  lit "highlightr-" ++ s = lit "highlightr-" ++ s' <-> s = s'.
Proof. split; [apply app_inv_head|by intros ->]. Qed.

(** X17: after [updateStyle] the class list holds, of the four style
    classes, the one named after the configured style and no other (none of
    them when the style is not one of the four); every other class is kept
    as it was. *)
Theorem updateStyle_classes highlighterStyle classList c :
  c ∈ updateStyle highlighterStyle classList
  <-> (c ∈ styleClasses /\ c = lit "highlightr-" ++ highlighterStyle)
      \/ ((c ∉ styleClasses) /\ c ∈ classList).
Proof.
  unfold updateStyle, styleClasses.
  rewrite !classToggle_elem, !elem_of_cons, elem_of_nil, !textEqb_eq.
  change (lit "highlightr-lowlight") with (lit "highlightr-" ++ lit "lowlight").
  change (lit "highlightr-floating") with (lit "highlightr-" ++ lit "floating").
  change (lit "highlightr-rounded") with (lit "highlightr-" ++ lit "rounded").
  change (lit "highlightr-realistic") with (lit "highlightr-" ++ lit "realistic").
  split.
  - intros [[-> ->]|[H1 [[-> ->]|[H2 [[-> ->]|[H3 [[-> ->]|[H4 Hc]]]]]]]];
      [left; split; auto..|right; split; [tauto|done]].
  - intros [[Hin ->]|[Hout Hc]].
    + rewrite !style_class_inj in Hin |- *.
      destruct Hin as [->|[->|[->|[->|[]]]]];
        repeat (first [left; done | right; split; [discriminate|]]).
    + tauto.
Qed.

(** ** Erasing the highlight under the caret *)

Lemma firstAt_unique needle s pos i j :
  firstAt needle s pos i -> firstAt needle s pos j -> i = j.
Proof.
  intros (Hi & Hsi & Hmi) (Hj & Hsj & Hmj).
  destruct (Nat.lt_trichotomy i j) as [Hlt|[->|Hgt]]; [|done|].
  - rewrite (Hmj i) in Hsi by lia. done.
  - rewrite (Hmi j) in Hsj by lia. done.
Qed.

Lemma indexOf_firstAt needle s pos i :
  pos <= length s -> firstAt needle s pos i -> indexOf needle s pos = Some i.
Proof.
  intros Hpos Hi. destruct (indexOf needle s pos) as [j|] eqn:Hj.
  - apply indexOf_Some in Hj; [|done]. f_equal. by eapply firstAt_unique.
  - apply indexOf_None in Hj; [|done]. destruct Hi as (Hp & Hs & _).
    by rewrite (Hj i Hp) in Hs.
Qed.

Lemma occursIn_noLT_app n x y :
  noLT x = true -> occursIn (LT :: n) (x ++ y) = occursIn (LT :: n) y.
Proof.
  induction x as [|c x IH]; [done|].
  cbn [noLT forallb app]. rewrite andb_true_iff. intros [Hc Hx].
  cbn [occursIn startsWith]. apply negb_true_iff in Hc.
  by rewrite eqc_sym, Hc, (IH Hx).
Qed.

(** Where the tags of a highlight written by the plugin stand in a line
    that has no [<mark] before it. *)
Lemma own_markup_located st key before T rest :
  plainAttr key = true ->
  (forall c, highlighters st !! key = Some c -> plainAttr c = true) ->
  occursIn (lit "<mark") before = false ->
  occursIn (lit "</mark>") T = false ->
  let P := CommandPlot.prefix (commandsMap st key) in
  let lineText := before ++ P ++ T ++ lit "</mark>" ++ rest in
  firstAt (lit "<mark") lineText 0 (length before)
  /\ firstAt (lit "</mark>") lineText (length before)
       (length before + length P + length T).
Proof.
  intros Hkey Hcol Hbefore HT P lineText.
  destruct (commandsMap_prefix_form st key Hkey Hcol) as (x & Hx & HP).
  assert (exists P', P = LT :: P' /\ noLT P' = true
                     /\ startsWith (lit "<mark") P = true
                     /\ startsWith (lit "</mark>") (P ++ T) = false) as (P' & HP' & HnoLT & Hopen & Hnc).
  { apply plainAttr_noLT in Hx. unfold noLT in *. subst P.
    destruct HP as [-> | ->].
    - exists (lit "mark style" ++ x ++ [DQ; GT]).
      repeat apply conj; try done. by rewrite !forallb_app, Hx.
    - exists (lit "mark class" ++ x ++ [DQ; GT]).
      repeat apply conj; try done. by rewrite !forallb_app, Hx. }
  split.
  - split; [lia|]. split.
    + subst lineText. rewrite drop_app_length.
      rewrite (startsWith_inv _ _ Hopen), <- app_assoc. apply startsWith_app.
    + intros j Hj. subst lineText. rewrite drop_app_le by lia.
      rewrite HP'. cbn [app].
      change (lit "<mark") with (LT :: lit "mark").
      apply startsWith_across_LT; [done|lia|done].
  - split; [lia|]. split.
    + subst lineText.
      replace (before ++ P ++ T ++ lit "</mark>" ++ rest)
        with ((before ++ P ++ T) ++ lit "</mark>" ++ rest) by (by rewrite <- !app_assoc).
      replace (length before + length P + length T) with (length (before ++ P ++ T))
        by (rewrite !length_app; lia).
      rewrite drop_app_length. apply startsWith_app.
    + intros j Hj. subst lineText.
      rewrite drop_app_ge by lia.
      replace (P ++ T ++ lit "</mark>" ++ rest)
        with ((P ++ T) ++ LT :: lit "/mark>" ++ rest) by (by rewrite <- !app_assoc).
      rewrite drop_app_le by (rewrite length_app; lia).
      change (lit "</mark>") with (LT :: lit "/mark>") in *.
      apply startsWith_across_LT; [done|rewrite length_app; lia|].
      rewrite HP'. cbn [app occursIn]. rewrite HP' in Hnc. cbn [app] in Hnc.
      rewrite Hnc. cbn [orb]. by rewrite occursIn_noLT_app.
Qed.

(** X18: with nothing selected and the caret anywhere inside a highlight
    written by the plugin, from the [<] of its opening tag to the end of its
    [</mark>], on a line with no [<mark] before that highlight,
    [eraseHighlight] replaces exactly this highlight by the text it
    encloses. *)
Theorem eraseHighlight_under_caret st key e before T after :
  Editor.wf e ->
  Editor.getSelection e = [] ->
  plainAttr key = true ->
  (forall c, highlighters st !! key = Some c -> plainAttr c = true) ->
  let P := CommandPlot.prefix (commandsMap st key) in
  let cursor := Editor.getCursor e in
  let markup := P ++ T ++ lit "</mark>" in
  Editor.getLine e (Editor.line cursor) = before ++ markup ++ after ->
  occursIn (lit "<mark") before = false ->
  occursIn (lit "</mark>") T = false ->
  occursIn (lit "<mark style") T = false ->
  occursIn (lit "<mark class") T = false ->
  (Z.of_nat (length before) <= Editor.ch cursor
   <= Z.of_nat (length before + length markup))%Z ->
  let a := Editor.posToOffset (Editor.doc e)
             (Editor.mkPos (Editor.line cursor) (Z.of_nat (length before))) in
  let b := Editor.posToOffset (Editor.doc e)
             (Editor.mkPos (Editor.line cursor)
                (Z.of_nat (length before + length markup))) in
  Editor.slice (Editor.doc e) a b = markup
  /\ Editor.doc (eraseHighlight st e)
     = take a (Editor.doc e) ++ T ++ drop b (Editor.doc e).
Proof.
  intros Hwf Hsel Hkey Hcol P cursor markup Hline Hbefore Hclose Hstyle Hclass Hin a b.
  destruct (own_markup_located st key before T after Hkey Hcol Hbefore Hclose)
    as [Hopen Hcl]. fold P in Hopen, Hcl.
  assert (before ++ P ++ T ++ lit "</mark>" ++ after = before ++ markup ++ after) as Hl
    by (subst markup; by rewrite <- !app_assoc).
  rewrite Hl, <- Hline in Hopen, Hcl.
  set (lineText := Editor.getLine e (Editor.line cursor)) in *.
  assert (length markup = length P + length T + 7) as Hlen.
  { subst markup. rewrite !length_app. cbn [lit list_ascii_of_string length]. lia. }
  assert (length lineText = length before + length markup + length after) as Hll.
  { rewrite Hline, !length_app. lia. }
  assert (locateMark lineText (Editor.ch cursor)
          = Done (Some (length before, length before + length markup))) as Hloc.
  { unfold locateMark. cbn [markScan].
    rewrite (indexOf_firstAt (lit "<mark") lineText 0 (length before)) by (lia || done).
    rewrite (indexOf_firstAt (lit "</mark>") lineText (length before)
               (length before + length P + length T)) by (lia || done).
    change (length (lit "</mark>")) with 7.
    replace (length before + length P + length T + 7)
      with (length before + length markup) by lia.
    rewrite Z.geb_leb.
    destruct (Z.leb_spec (Z.of_nat (length before)) (Editor.ch cursor)); [|lia].
    destruct (Z.leb_spec (Editor.ch cursor)
                (Z.of_nat (length before + length markup))); [done|lia]. }
  pose proof (getCursor_line e) as Hcur. subst a b lineText cursor.
  destruct (Editor.lineColOf _ _) as [l k].
  destruct Hcur as (Hcur & Hgl & Hl0 & Hk). rewrite Hcur in *.
  cbn [Editor.line Editor.ch] in *. rewrite Hgl in *.
  set (lineText := Editor.lineAt (Editor.doc e) l) in *.
  assert (Editor.slice lineText (length before) (length before + length markup)
          = markup) as Hsl.
  { rewrite Hline. apply slice_middle. }
  rewrite !EditorFacts.posToOffset_mkPos.
  assert (Editor.offsetOf (Editor.doc e) l (length before)
          <= Editor.offsetOf (Editor.doc e) l (length before + length markup)) as Hle.
  { rewrite (EditorLines.offsetOf_add _ l (length before)),
      (EditorLines.offsetOf_add _ l (length before + length markup)) by (fold lineText; lia).
    lia. }
  split.
  - by rewrite EditorLines.slice_offsetOf.
  - rewrite (eraseHighlight_doc st e Hwf).
    unfold selectMarkRegionIfInside. rewrite Hsel. cbn [negb truthy].
    rewrite Hcur. cbn [Editor.line Editor.ch]. rewrite Hgl. fold lineText.
    rewrite Hloc. cbn [snd].
    unfold Editor.selFrom, Editor.selTo, Editor.setSelection.
    cbn [Editor.anchor Editor.head Editor.doc].
    rewrite !EditorFacts.posToOffset_mkPos, Nat.min_l, Nat.max_r by done.
    rewrite EditorLines.slice_offsetOf. fold lineText. rewrite Hsl.
    subst markup P. by rewrite stripMarks_template.
Qed.

(** ** The further properties on sample buffers *)

Lemma selectMarkRegionIfInside_region_text_witness :
  12 <= length (mr_selection (selectMarkRegionIfInside bufInLine true).1).
Proof.
  pose proof (selectMarkRegionIfInside_region_text bufInLine
                (sample_wf bufInLine eq_refl) eq_refl eq_refl) as H.
  cbv zeta in H. exact (proj1 (proj2 (proj2 (proj2 H)))).
Defined.

Lemma selectWordIfNone_blank_witness :
  selectWordIfNone bufEmpty
  = (mkWordSelectionResult [] (Editor.mkPos 0 0) (Editor.mkPos 0 0) true, bufEmpty).
Proof.
  apply (selectWordIfNone_blank bufEmpty (sample_wf bufEmpty eq_refl) eq_refl);
    by left.
Defined.

Lemma selectWordIfNone_again_witness :
  wordSelected (selectWordIfNone (selectWordIfNone bufDefCaret).2).1 = false.
Proof.
  rewrite (selectWordIfNone_again bufDefCaret (sample_wf bufDefCaret eq_refl));
    [reflexivity|discriminate].
Defined.

Lemma eraseHighlight_only_removes_witness :
  length (Editor.doc (eraseHighlight togglingOn bufInLine))
  <= length (Editor.doc bufInLine).
Proof.
  exact (proj2 (eraseHighlight_only_removes togglingOn bufInLine
                  (sample_wf bufInLine eq_refl))).
Defined.

Lemma eraseHighlight_selection_after_witness :
  eraseHighlight togglingOn bufThreeLines
  = Editor.mk (lit "ab" ++ [NL] ++ lit "cd" ++ [NL] ++ lit "efg") 0 9.
Proof.
  rewrite (eraseHighlight_selection_after togglingOn bufThreeLines
             (sample_wf bufThreeLines eq_refl) eq_refl); [reflexivity|discriminate].
Defined.

Lemma eraseHighlight_collapses_witness :
  eraseHighlight togglingOff bufInLine = Editor.mk (lit "x hi y") 2 2.
Proof.
  rewrite (eraseHighlight_collapses togglingOff bufInLine
             (sample_wf bufInLine eq_refl) eq_refl); [reflexivity|by left].
Defined.

Lemma eraseHighlight_outside_noop_witness :
  eraseHighlight togglingOn bufDefCaret = bufDefCaret.
Proof.
  exact (eraseHighlight_outside_noop togglingOn bufDefCaret
           (sample_wf bufDefCaret eq_refl) eq_refl eq_refl).
Defined.


Lemma highlight_twice_restores_witness :
  highlightCommand togglingOn (lit "b")
    (highlightCommand togglingOn (lit "a") bufDefSelected)
  = bufDefSelected.
Proof.
  apply (highlight_twice_restores togglingOn (lit "a") (lit "b") bufDefSelected);
    try reflexivity.
  - by apply sample_wf.
  - discriminate.
  - intros c H. vm_compute in H. discriminate.
Defined.

Lemma applyCommand_toggle_wraps_word_witness :
  highlightCommand togglingOn (lit "a") bufDefCaret
  = Editor.mk (lit "abc " ++ openA ++ lit "def</mark> ghi") 25 25.
Proof.
  exact (applyCommand_toggle_wraps_word togglingOn
           (commandsMap togglingOn (lit "a")) bufDefCaret eq_refl
           (sample_wf bufDefCaret eq_refl) eq_refl eq_refl eq_refl).
Defined.

Lemma applyCommand_blank_witness :
  highlightCommand togglingOff (lit "a") bufBlank
  = Editor.mk (lit "ab " ++ openA ++ lit "</mark> cd") 24 24.
Proof.
  apply (applyCommand_blank togglingOff (commandsMap togglingOff (lit "a")) bufBlank
           (sample_wf bufBlank eq_refl) eq_refl); try reflexivity; by right.
Defined.

Lemma applyCommand_unwraps_witness :
  highlightCommand togglingOff (lit "a")
    (Editor.mk (lit "x " ++ openA ++ lit "hi</mark> y") 23 25)
  = Editor.mk (lit "x hi y") 4 4.
Proof.
  apply (applyCommand_unwraps togglingOff (lit "a") (lit "x ") (lit "hi") (lit " y"));
    [reflexivity|reflexivity|discriminate|reflexivity].
Defined.

Lemma openHighlightr_buffer_witness :
  openHighlightr togglingOn false bufMarkedSelected = (bufMarkedSelected, true)
  /\ openHighlightr togglingOn false bufInLine
     = (eraseHighlight togglingOn bufInLine, false).
Proof.
  split.
  - apply (proj1 (openHighlightr_buffer togglingOn false bufMarkedSelected)).
    right. discriminate.
  - exact (proj2 (openHighlightr_buffer togglingOn false bufInLine) eq_refl eq_refl).
Defined.

Lemma eraseHighlight_under_caret_witness :
  Editor.doc (eraseHighlight togglingOn bufSecondLine)
  = lit "one" ++ [NL] ++ lit "x hi y" ++ [NL] ++ lit "three".
Proof.
  pose proof (eraseHighlight_under_caret togglingOn (lit "a") bufSecondLine
                (lit "x ") (lit "hi") (lit " y")
                (sample_wf bufSecondLine eq_refl) eq_refl eq_refl) as H.
  cbv zeta in H.
  destruct H as [_ H];
    [intros c Hc; vm_compute in Hc; discriminate
    |reflexivity..
    |vm_compute; split; discriminate
    |].
  rewrite H. reflexivity.
Defined.

Lemma applyCommand_strips_selection_witness :
  highlightCommand togglingOn (lit "b") bufMarkupSelected = Editor.mk (lit "hi") 0 2.
Proof.
  exact (applyCommand_strips_selection togglingOn
           (commandsMap togglingOn (lit "b")) bufMarkupSelected eq_refl
           (sample_wf bufMarkupSelected eq_refl) eq_refl eq_refl).
Defined.
